(** * lum.events.js: the dispatch core (Registry, Listener, Event)

    A shallow embedding of the event registry of [@lumjs/events]:
    [LumEventRegistry] (registry.js), [LumEventListener] (listener.js) and
    [LumEvent] (event.js, the constructor taking
    [(listener, target, type, args, status)], the one [emitEvent] calls).

    JavaScript objects that the code shares and mutates live in explicit
    stores: [Set]s of event types, argument arrays, listeners and events are
    referred to by their index in the store, so that two references to one
    object see each other's updates.  A [Set] is the list of its elements in
    insertion order.

    Scope of the model.  Handlers and set-up callbacks are caller code; they
    are given by a [Callbacks] instance.  A callback sees the whole state and
    the value it is called with, returns or throws, and may assign the
    [stopEmitting] flag of the running emit; it does not call back into the
    registry.  There is one registry.  Its property [typeDataFor], which
    the [LumEvent] constructor reads first, is assigned by no code of the
    repository: it is [undefined] unless the caller has assigned it, and
    the constructor throws where it is.  Event types are strings and symbols;
    the [delimiter] option is the default [/\s+/] or a string, and white
    space is ASCII white space.  The proxy members that [setupTargets] and
    [extendInternal] attach to targets, listeners and results are not
    modelled. *)

From Stdlib Require Import ZArith Ascii String.
From stdpp Require Import base option list gmap strings.

Local Open Scope string_scope.
Local Open Scope list_scope.

(** ** JavaScript values *)

(** The values the registry inspects.  Objects are named by identity. *)
Inductive value :=
  | VUndef
  | VNull
  | VBool (b : bool)
  | VNum (n : Z)
  | VStr (s : string)
  | VSym (id : nat) (description : option string)
  | VFun (f : nat)                    (* a function; [f] names its behaviour *)
  | VObj (o : nat)                    (* any other object *)
  | VHandlerObj (o : nat) (f : nat)   (* an object whose [handleEvent] is [f] *)
  | VEvent (e : nat)                  (* a [LumEvent] instance *)
  | VListener (l : nat)               (* a [LumEventListener] instance *)
  | VRegistry                         (* the registry itself *)
  | VInternal (name : string).        (* an object the module itself makes *)

Global Instance value_eq_dec : EqDecision value.
Proof. solve_decision. Defined.

(** [isObj] of @lumjs/core/types: [typeof v === 'object' && v !== null]. *)
Definition isObj (v : value) : bool :=
  match v with
  | VObj _ | VHandlerObj _ _ | VEvent _ | VListener _ | VRegistry
  | VInternal _ => true
  | _ => false
  end.

(** JavaScript truthiness, for [if (event.options.once)]. *)
Definition truthy (v : value) : bool :=
  match v with
  | VUndef | VNull => false
  | VBool b => b
  | VNum n => negb (n =? 0)%Z
  | VStr s => negb (String.eqb s "")
  | _ => true
  end.

(** An event type: a string or a symbol. *)
Inductive token :=
  | TokStr (s : string)
  | TokSym (id : nat) (description : option string).

Global Instance token_eq_dec : EqDecision token.
Proof. solve_decision. Defined.

Definition token_code (t : token) : string + nat * option string :=
  match t with
  | TokStr s => inl s
  | TokSym i d => inr (i, d)
  end.

Definition token_decode (c : string + nat * option string) : token :=
  match c with
  | inl s => TokStr s
  | inr (i, d) => TokSym i d
  end.

Global Instance token_countable : Countable token :=
  inj_countable' token_code token_decode
    (λ t, match t with
          | TokStr _ => eq_refl
          | TokSym _ _ => eq_refl
          end).

Definition value_of_token (t : token) : value :=
  match t with
  | TokStr s => VStr s
  | TokSym i d => VSym i d
  end.

(** A JavaScript object used as a bag of options. *)
Abbreviation options := (gmap string value).

(** [Object.assign({}, a, b)]: the keys of [b] win. *)
Definition assign (a b : options) : options := b ∪ a.

Definition opt_get (o : options) (k : string) : value :=
  default VUndef (o !! k).

(** ** [Set] objects as insertion-ordered lists *)

Section js_set.
Context {A : Type} `{EqDecision A}.

Definition set_has (x : A) (s : list A) : bool := bool_decide (x ∈ s).

(** [s.add(x)]: appended unless already present. *)
Definition set_add (x : A) (s : list A) : list A :=
  if set_has x s then s else s ++ [x].

(** [s.delete(x)]. *)
Definition set_delete (x : A) (s : list A) : list A :=
  filter (λ y, y ≠ x) s.

(** [new Set(iterable)]: first occurrences, in order. *)
Definition new_set (items : list A) : list A :=
  foldl (λ s x, set_add x s) [] items.

(** [a.union(b)]: the elements of [a], then those of [b] not in [a]. *)
Definition set_union (a b : list A) : list A :=
  foldl (λ s x, set_add x s) a b.
End js_set.

(** ** Splitting event names *)

(** White space as [String.prototype.trim] and [\s] see it, on ASCII. *)
Definition is_ws (c : ascii) : bool :=
  bool_decide (nat_of_ascii c ∈ [9; 10; 11; 12; 13; 32]).

Fixpoint drop_ws (cs : list ascii) : list ascii :=
  match cs with
  | c :: cs' => if is_ws c then drop_ws cs' else cs
  | [] => []
  end.

(** [names.trim()]. *)
Definition trim (cs : list ascii) : list ascii :=
  reverse (drop_ws (reverse (drop_ws cs))).

(** [cs.split(/\s+/)]: the pieces between maximal runs of white space;
    [cur] is the piece being read (reversed), [skipping] says that the
    previous character was white space. *)
Fixpoint split_ws (cur : list ascii) (skipping : bool) (cs : list ascii)
  : list (list ascii) :=
  match cs with
  | [] => [reverse cur]
  | c :: cs' =>
      if is_ws c
      then if skipping then split_ws cur true cs'
           else reverse cur :: split_ws [] true cs'
      else split_ws (c :: cur) false cs'
  end.

Fixpoint is_prefix (d cs : list ascii) : bool :=
  match d, cs with
  | [], _ => true
  | x :: d', y :: cs' => bool_decide (x = y) && is_prefix d' cs'
  | _ :: _, [] => false
  end.

(** [cs.split(d)] for a non-empty string [d]; [skip] counts the characters
    of a matched separator still to be passed over. *)
Fixpoint split_on (d : list ascii) (skip : nat) (cur : list ascii)
    (cs : list ascii) : list (list ascii) :=
  match cs with
  | [] => [reverse cur]
  | c :: cs' =>
      match skip with
      | S k => split_on d k cur cs'
      | O =>
          if is_prefix d cs
          then reverse cur :: split_on d (length d - 1) [] cs'
          else split_on d 0 (c :: cur) cs'
      end
  end.

(** The [delimiter] option: the default [/\s+/], or a string. *)
Inductive delimiter :=
  | DelimWhitespace
  | DelimString (d : string).

(** [str.split(delimiter)]; an empty string separator yields the
    characters one by one. *)
Definition js_split (dl : delimiter) (cs : list ascii) : list string :=
  string_of_list_ascii <$>
    match dl with
    | DelimWhitespace => split_ws [] false cs
    | DelimString d =>
        match list_ascii_of_string d with
        | [] => (λ c, [c]) <$> cs
        | ds => split_on ds 0 [] cs
        end
    end.

Definition split_tokens (dl : delimiter) (names : string) : list token :=
  TokStr <$> js_split dl (trim (list_ascii_of_string names)).

(** ** Objects and the state of the program *)

(** Per-type metadata read by the [LumEvent] constructor through
    [reg.typeDataFor] (lib/typedata.js), where a caller has put such a
    table on the registry. *)
Record LumEventTypeData := {
  td_options : options;
  td_stateful : bool;
}.

(** The registry's internal [LumEventData]: what [set()] configures.
    [stateData] is the history array, absent ([None]) unless stateful; its
    entries are events. *)
Record LumEventData := {
  oneTime : bool;
  keepState : Z;
  stateData : option (list nat);
}.

(** [get stateful()]. *)
Definition stateful (d : LumEventData) : bool := (0 <? keepState d)%Z.

(** A [LumEventListener]: [eventTypes] refers to a [Set] in the store. *)
Record LumEventListener := {
  lsnr_handler : value;
  lsnr_eventTypes : nat;
  lsnr_options : options;
}.

(** A [LumEvent]: [args] refers to an array in the store; [origEvent] and
    [prevEvent] refer to events. *)
Record LumEvent := {
  ev_eventListener : nat;
  ev_args : nat;
  ev_target : value;
  ev_type : token;
  ev_name : string;
  ev_options : options;
  ev_data : value;
  ev_prevEvent : option nat;
  ev_origEvent : nat;
  ev_typeData : option LumEventTypeData;
}.

(** The status object [sti] of one [emit()] call.  [sti_targetListeners]
    is the per-target set of listeners already called; it exists only while
    the pass runs. *)
Record Status := {
  sti_eventTypes : nat;
  sti_multiMatch : bool;
  sti_onceRemoved : list nat;
  sti_stopEmitting : bool;
  sti_emitted : list nat;
  sti_targets : list value;
  sti_targetListeners : option (list nat);
}.

(** Where the targets come from: a fixed [Set], or a callback. *)
Inductive target_source :=
  | FixedTargets (ts : list value)
  | DynamicTargets (f : nat).

(** A [LumEventRegistry].  [reg_options] is the compiled object
    [this.options]; the three options the registry itself reads are
    fields of their own as well.  [eventData] is the table [set()]
    writes.  [typeDataFor] is the property the [LumEvent] constructor
    reads: the registry class never assigns it, so it is [undefined]
    ([None]) on every registry the constructor makes, and a table only
    where a caller has assigned one. *)
Record LumEventRegistry := {
  reg_delimiter : delimiter;
  reg_multiMatch : bool;
  reg_wildcard : token;
  reg_options : options;
  getTargets : target_source;
  allListeners : list nat;
  listenersFor : gmap token (list nat);
  eventData : gmap token LumEventData;
  typeDataFor : option (gmap token LumEventTypeData);
}.

(** One call of caller code, as the registry made it, with the listener
    tables as they were at that moment. *)
Inductive call_kind :=
  | HandlerCall          (* [handler.call(target, event)], [handleEvent(event)] *)
  | SetupEventCall       (* [setupEvent.call(listener, event)] *)
  | SetupListenerCall.   (* [setup.call(registry, listener)] *)

Global Instance call_kind_eq_dec : EqDecision call_kind.
Proof. solve_decision. Defined.

Record call := {
  call_kind_of : call_kind;
  call_fn_id : nat;
  call_this : value;
  call_arg : value;
  call_allListeners : list nat;
  call_listenersFor : gmap token (list nat);
}.

Record State := {
  registry : LumEventRegistry;
  sets : list (list token);
  arrays : list (list value);
  listeners : list LumEventListener;
  events : list LumEvent;
  calls : list call;
}.

(** What a callback does: return, possibly having assigned
    [status.stopEmitting], or throw. *)
Inductive outcome :=
  | Returns (stop : option bool)
  | Throws (v : value).

(** What a target callback returns. *)
Inductive provided :=
  | ProvidedSet (ts : list value)
  | ProvidedIterable (ts : list value)
  | ProviderThrows (v : value).

(** The caller's code: the behaviour of every function value, called with
    a receiver and one argument, and of target callbacks. *)
Class Callbacks := {
  call_fn : nat → value → value → State → outcome;
  call_targets : nat → State → provided;
}.

(** ** Errors and the state monad *)

Inductive error :=
  | TypeError (msg : string)
  | RangeError (msg : string)
  | Thrown (v : value)     (* thrown by caller code *)
  | Dangling.              (* a reference to no object: not a JavaScript state *)

(** What [reg.typeDataFor.get(type)] throws where [reg.typeDataFor] is
    [undefined]. *)
Definition typeDataFor_undefined : error :=
  TypeError "Cannot read properties of undefined (reading 'get')".

Inductive result (A : Type) :=
  | Ok (a : A) (s : State)
  | Err (e : error) (s : State).
Arguments Ok {A} a s.
Arguments Err {A} e s.

Definition M (A : Type) : Type := State → result A.

Global Instance M_ret : MRet M := λ A a s, Ok a s.
Global Instance M_bind : MBind M := λ A B f m s,
  match m s with
  | Ok a s' => f a s'
  | Err e s' => Err e s'
  end.

Definition throw {A} (e : error) : M A := λ s, Err e s.
Definition get_state : M State := λ s, Ok s s.
Definition gets {A} (f : State → A) : M A := λ s, Ok (f s) s.
Definition modify (f : State → State) : M unit := λ s, Ok tt (f s).

Definition with_registry (r : LumEventRegistry) (s : State) : State :=
  {| registry := r; sets := sets s; arrays := arrays s;
     listeners := listeners s; events := events s; calls := calls s |}.
Definition with_sets (x : list (list token)) (s : State) : State :=
  {| registry := registry s; sets := x; arrays := arrays s;
     listeners := listeners s; events := events s; calls := calls s |}.
Definition with_arrays (x : list (list value)) (s : State) : State :=
  {| registry := registry s; sets := sets s; arrays := x;
     listeners := listeners s; events := events s; calls := calls s |}.
Definition with_listeners (x : list LumEventListener) (s : State) : State :=
  {| registry := registry s; sets := sets s; arrays := arrays s;
     listeners := x; events := events s; calls := calls s |}.
Definition with_events (x : list LumEvent) (s : State) : State :=
  {| registry := registry s; sets := sets s; arrays := arrays s;
     listeners := listeners s; events := x; calls := calls s |}.
Definition with_calls (x : list call) (s : State) : State :=
  {| registry := registry s; sets := sets s; arrays := arrays s;
     listeners := listeners s; events := events s; calls := x |}.

(** Reading through a reference fails with [Dangling] when nothing is
    there; allocation appends to the store. *)
Definition deref {A} (store : State → list A) (i : nat) : M A := λ s,
  match store s !! i with
  | Some x => Ok x s
  | None => Err Dangling s
  end.

Definition read_set : nat → M (list token) := deref sets.
Definition read_array : nat → M (list value) := deref arrays.
Definition get_listener : nat → M LumEventListener := deref listeners.
Definition get_event : nat → M LumEvent := deref events.

Definition write_set (l : nat) (x : list token) : M unit :=
  modify (λ s, with_sets (<[l:=x]> (sets s)) s).
Definition write_array (l : nat) (x : list value) : M unit :=
  modify (λ s, with_arrays (<[l:=x]> (arrays s)) s).
Definition write_listener (l : nat) (x : LumEventListener) : M unit :=
  modify (λ s, with_listeners (<[l:=x]> (listeners s)) s).

Definition alloc_set (x : list token) : M nat := λ s,
  Ok (length (sets s)) (with_sets (sets s ++ [x]) s).
Definition alloc_array (x : list value) : M nat := λ s,
  Ok (length (arrays s)) (with_arrays (arrays s ++ [x]) s).
Definition alloc_listener (x : LumEventListener) : M nat := λ s,
  Ok (length (listeners s)) (with_listeners (listeners s ++ [x]) s).
Definition alloc_event (x : LumEvent) : M nat := λ s,
  Ok (length (events s)) (with_events (events s ++ [x]) s).

Definition put_registry (r : LumEventRegistry) : M unit :=
  modify (with_registry r).

Definition with_tables (al : list nat) (lf : gmap token (list nat))
    (r : LumEventRegistry) : LumEventRegistry :=
  {| reg_delimiter := reg_delimiter r; reg_multiMatch := reg_multiMatch r;
     reg_wildcard := reg_wildcard r; reg_options := reg_options r;
     getTargets := getTargets r; allListeners := al; listenersFor := lf;
     eventData := eventData r; typeDataFor := typeDataFor r |}.

Definition with_eventData (ed : gmap token LumEventData)
    (r : LumEventRegistry) : LumEventRegistry :=
  {| reg_delimiter := reg_delimiter r; reg_multiMatch := reg_multiMatch r;
     reg_wildcard := reg_wildcard r; reg_options := reg_options r;
     getTargets := getTargets r; allListeners := allListeners r;
     listenersFor := listenersFor r; eventData := ed;
     typeDataFor := typeDataFor r |}.

(** Updates of the status object. *)
Definition sti_set_called (c : option (list nat)) (sti : Status) : Status :=
  {| sti_eventTypes := sti_eventTypes sti; sti_multiMatch := sti_multiMatch sti;
     sti_onceRemoved := sti_onceRemoved sti;
     sti_stopEmitting := sti_stopEmitting sti; sti_emitted := sti_emitted sti;
     sti_targets := sti_targets sti; sti_targetListeners := c |}.
Definition sti_set_stop (b : bool) (sti : Status) : Status :=
  {| sti_eventTypes := sti_eventTypes sti; sti_multiMatch := sti_multiMatch sti;
     sti_onceRemoved := sti_onceRemoved sti;
     sti_stopEmitting := b; sti_emitted := sti_emitted sti;
     sti_targets := sti_targets sti;
     sti_targetListeners := sti_targetListeners sti |}.
Definition sti_set_emitted (e : list nat) (sti : Status) : Status :=
  {| sti_eventTypes := sti_eventTypes sti; sti_multiMatch := sti_multiMatch sti;
     sti_onceRemoved := sti_onceRemoved sti;
     sti_stopEmitting := sti_stopEmitting sti; sti_emitted := e;
     sti_targets := sti_targets sti;
     sti_targetListeners := sti_targetListeners sti |}.
Definition sti_set_onceRemoved (o : list nat) (sti : Status) : Status :=
  {| sti_eventTypes := sti_eventTypes sti; sti_multiMatch := sti_multiMatch sti;
     sti_onceRemoved := o;
     sti_stopEmitting := sti_stopEmitting sti; sti_emitted := sti_emitted sti;
     sti_targets := sti_targets sti;
     sti_targetListeners := sti_targetListeners sti |}.
Definition sti_set_targets (t : list value) (sti : Status) : Status :=
  {| sti_eventTypes := sti_eventTypes sti; sti_multiMatch := sti_multiMatch sti;
     sti_onceRemoved := sti_onceRemoved sti;
     sti_stopEmitting := sti_stopEmitting sti; sti_emitted := sti_emitted sti;
     sti_targets := t;
     sti_targetListeners := sti_targetListeners sti |}.

(** The listeners already called for the current target. *)
Definition called (sti : Status) : list nat :=
  default [] (sti_targetListeners sti).

(** ** The code *)

(** What [getEventTypes] and [emit] accept as event types. *)
Inductive types_arg :=
  | TypesString (s : string)
  | TypesSymbol (id : nat) (description : option string)
  | TypesSet (l : nat)                 (* a [Set] object, by reference *)
  | TypesIterable (items : list token) (* any other iterable *)
  | TypesInvalid.                      (* anything else *)

(** The [spec] object of a listener: the four reserved members, its other
    own properties, and the nested [options] object. *)
Record listener_spec := {
  spec_listener : value;
  spec_handler : value;
  spec_eventTypes : option types_arg;
  spec_eventNames : option types_arg;
  spec_props : options;
  spec_options : options;
}.

Definition empty_spec : listener_spec :=
  {| spec_listener := VUndef; spec_handler := VUndef;
     spec_eventTypes := None; spec_eventNames := None;
     spec_props := ∅; spec_options := ∅ |}.

(** The arguments of [makeListener], [listen] and [once]. *)
Inductive listen_args :=
  | ListenSpec (spec : listener_spec)
  | ListenArgs (eventTypes : option types_arg) (handler : value)
      (spec : option listener_spec)
  | ListenBadArity.

(** The options [set()] looks at. *)
Record set_opts := {
  opt_oneTime : option bool;
  opt_keepState : option Z;
  opt_stateful : option bool;
}.

Definition REMOVE_OPTS : list string :=
  ["listener"; "handler"; "eventNames"; "eventTypes"].

Definition makeOpts (spec : listener_spec) : options :=
  foldl (λ opts rm, delete rm opts)
    (assign (spec_props spec) (spec_options spec)) REMOVE_OPTS.

Definition isListener (v : value) : bool :=
  match v with
  | VFun _ | VHandlerObj _ _ => true
  | _ => false
  end.

(** [event.name]. *)
Definition event_name (type : token) : string :=
  match type with
  | TokStr s => s
  | TokSym _ (Some d) => d
  | TokSym _ None => "‽"
  end.

Section code.
Context `{Callbacks}.

(** A call of caller code, logged with the listener tables of the
    moment.  The callback may assign [status.stopEmitting]; one that
    calls a method of the registry itself is outside the model. *)
Definition invoke (k : call_kind) (f : nat) (this arg : value)
    (status : Status) : M Status := λ s,
  let c := {| call_kind_of := k;
              call_fn_id := f; call_this := this; call_arg := arg;
              call_allListeners := allListeners (registry s);
              call_listenersFor := listenersFor (registry s) |} in
  let s' := with_calls (calls s ++ [c]) s in
  match call_fn f this arg s with
  | Returns None => Ok status s'
  | Returns (Some b) => Ok (sti_set_stop b status) s'
  | Throws v => Err (Thrown v) s'
  end.

(** The same outside of an emit pass: there is no status to assign. *)
Definition invoke_setup (f : nat) (this arg : value) : M unit := λ s,
  let c := {| call_kind_of := SetupListenerCall;
              call_fn_id := f; call_this := this; call_arg := arg;
              call_allListeners := allListeners (registry s);
              call_listenersFor := listenersFor (registry s) |} in
  let s' := with_calls (calls s ++ [c]) s in
  match call_fn f this arg s with
  | Returns _ => Ok tt s'
  | Throws v => Err (Thrown v) s'
  end.

(** *** registry.js: [splitNames], [getEventTypes] *)

Definition splitNames (names : string) : M nat :=
  reg ← gets registry;
  alloc_set (new_set (split_tokens (reg_delimiter reg) names)).

Definition getEventTypes (types : types_arg) : M nat :=
  match types with
  | TypesString s => splitNames s
  | TypesSymbol i d => alloc_set (new_set [TokSym i d])
  | TypesSet l => mret l
  | TypesIterable items => alloc_set (new_set items)
  | TypesInvalid => throw (TypeError "Invalid event names")
  end.

(** *** event.js: the [LumEvent] constructor

    Its first statement is [reg.typeDataFor.get(type)]: where the
    registry has no [typeDataFor], this throws a [TypeError] before
    anything else is done.  [this.args = args] keeps the caller's
    array; [args.shift()] on the forwarding path therefore updates that
    array in the store.  The options are [Object.assign({},
    reg.options, etd?.options, listener.options, status.options)]; the
    status [emit()] builds has no [options], so the last layer adds
    nothing.  [emitStatus], the back reference to the status, is not a
    field of the model. *)
Definition LumEvent_constructor (listener : nat) (target : value)
    (type : token) (args : nat) (status : Status) : M (nat * Status) :=
  reg ← gets registry;
  tdf ← match typeDataFor reg with
        | Some tdf => mret tdf
        | None => throw typeDataFor_undefined
        end;
  l ← get_listener listener;
  let etd := tdf !! type in
  let opts :=
    assign (assign (assign ∅ (reg_options reg))
              (from_option td_options ∅ etd)) (lsnr_options l) in
  this ← gets (λ s, length (events s));
  let ev data prev orig :=
    {| ev_eventListener := listener; ev_args := args; ev_target := target;
       ev_type := type; ev_name := event_name type; ev_options := opts;
       ev_data := data; ev_prevEvent := prev; ev_origEvent := orig;
       ev_typeData := etd |} in
  a ← read_array args;
  e ← match a with
      | VEvent ao :: rest =>
          prev ← get_event ao;
          write_array args rest;;
          mret (ev (ev_data prev) (Some ao) (ev_origEvent prev))
      | v :: _ => mret (ev (if isObj v then v else VNull) None this)
      | [] => mret (ev VNull None this)
      end;
  alloc_event e;;
  status ← match opt_get opts "setupEvent" with
           | VFun f =>
               invoke SetupEventCall f (VListener listener) (VEvent this)
                 status
           | _ => mret status
           end;
  mret (this, status).

(** *** listener.js *)

Definition LumEventListener_constructor (spec : listener_spec) : M nat :=
  h ← (if isListener (spec_listener spec) then mret (spec_listener spec)
       else if isListener (spec_handler spec) then mret (spec_handler spec)
       else throw (TypeError "Invalid listener/handler in spec"));
  let opts := makeOpts spec in
  let events := match spec_eventTypes spec with
                | Some t => Some t
                | None => spec_eventNames spec
                end in
  ets ← getEventTypes (default TypesInvalid events);
  this ← alloc_listener
    {| lsnr_handler := h; lsnr_eventTypes := ets; lsnr_options := opts |};
  reg ← gets registry;
  let setup := match opt_get opts "setupListener" with
               | VUndef | VNull => opt_get (reg_options reg) "setupListener"
               | v => v
               end in
  match setup with
  | VFun f => invoke_setup f VRegistry (VListener this)
  | _ => mret tt
  end;;
  mret this.

Definition emitEvent (lsnr : nat) (type : token) (target : value)
    (args : nat) (status : Status) : M (nat * Status) :=
  '(event, status) ← LumEvent_constructor lsnr target type args status;
  l ← get_listener lsnr;
  ev ← get_event event;
  status ← match lsnr_handler l with
           | VFun f =>
               invoke HandlerCall f (ev_target ev) (VEvent event) status
           | VHandlerObj o f =>
               invoke HandlerCall f (VHandlerObj o f) (VEvent event) status
           | _ => throw (TypeError "handleEvent is not a function")
           end;
  let status :=
    if truthy (opt_get (ev_options ev) "once")
    then sti_set_onceRemoved (set_add lsnr (sti_onceRemoved status)) status
    else status in
  mret (event, status).
End code.

(** *** registry.js *)

(** What the constructor takes as [targets]. *)
Inductive targets_arg :=
  | TargetsFunction (f : nat)
  | TargetsSet (ts : list value)
  | TargetsIterable (ts : list value)
  | TargetsSingle (t : value).

Record registry_opts := {
  o_delimiter : option delimiter;
  o_multiMatch : option bool;
  o_wildcard : option token;
  o_others : options;
}.

(** [cp({}, DEF_OPTIONS, opts, {extend})]: the options of the caller
    over the defaults, and the compiled [extend] rules, an object of the
    module's own making. *)
Definition compile_options (opts : registry_opts) : options :=
  <["extend" := VInternal "extend"]>
    (<["delimiter" :=
         match default DelimWhitespace (o_delimiter opts) with
         | DelimWhitespace => VInternal "/\s+/"
         | DelimString d => VStr d
         end]>
       (<["multiMatch" := VBool (default false (o_multiMatch opts))]>
          (<["wildcard" :=
               value_of_token (default (TokStr "*") (o_wildcard opts))]>
             (o_others opts)))).

(** The constructor, with [DEF_OPTIONS] for what [opts] leaves out.  It
    creates [allListeners], [listenersFor] and [eventData], and no
    [typeDataFor].  The first call of a target callback, which only feeds
    the set-up of the targets, is left out with that set-up. *)
Definition LumEventRegistry_constructor (targets : targets_arg)
    (opts : registry_opts) : LumEventRegistry :=
  {| reg_delimiter := default DelimWhitespace (o_delimiter opts);
     reg_multiMatch := default false (o_multiMatch opts);
     reg_wildcard := default (TokStr "*") (o_wildcard opts);
     reg_options := compile_options opts;
     getTargets := match targets with
                   | TargetsFunction f => DynamicTargets f
                   | TargetsSet ts => FixedTargets ts
                   | TargetsIterable ts => FixedTargets (new_set ts)
                   | TargetsSingle t => FixedTargets (new_set [t])
                   end;
     allListeners := [];
     listenersFor := ∅;
     eventData := ∅;
     typeDataFor := None |}.

(** The state right after [new Registry(targets, opts)]. *)
Definition initial_state (targets : targets_arg) (opts : registry_opts)
  : State :=
  {| registry := LumEventRegistry_constructor targets opts;
     sets := []; arrays := []; listeners := []; events := []; calls := [] |}.

(** The loop of [add()]: [listener] joins the set of every type. *)
Definition add_listenersFor (listener : nat) (ets : list token)
    (lf : gmap token (list nat)) : gmap token (list nat) :=
  foldl (λ lf et, <[et := set_add listener (default [] (lf !! et))]> lf)
    lf ets.

(** The inner loop of [removeListeners()]. *)
Definition delete_listenersFor (listener : nat) (ets : list token)
    (lf : gmap token (list nat)) : gmap token (list nat) :=
  foldl (λ lf ename,
           match lf !! ename with
           | Some lset => <[ename := set_delete listener lset]> lf
           | None => lf
           end)
    lf ets.

(** [new LumEventData(type)]. *)
Definition new_LumEventData : LumEventData :=
  {| oneTime := false; keepState := 0; stateData := None |}.

(** [set(type, opts)] on one [LumEventData]. *)
Definition set_data (opts : set_opts) (data : LumEventData) : LumEventData :=
  let ot := default (oneTime data) (opt_oneTime opts) in
  let ks := match opt_keepState opts, opt_stateful opts with
            | Some n, _ => n
            | None, Some true => 10%Z
            | None, Some false => 0%Z
            | None, None => keepState data
            end in
  let sd := match (0 <? ks)%Z, stateData data with
            | true, None => Some []
            | false, Some _ => None
            | _, sd => sd
            end in
  {| oneTime := ot; keepState := ks; stateData := sd |}.

Section registry_code.
Context `{Callbacks}.

Definition makeListener (args : listen_args) : M nat :=
  match args with
  | ListenBadArity => throw (RangeError "Invalid number of arguments")
  | ListenSpec spec => LumEventListener_constructor spec
  | ListenArgs ets h spec =>
      let spec := default empty_spec spec in
      LumEventListener_constructor
        {| spec_listener := spec_listener spec; spec_handler := h;
           spec_eventTypes := ets; spec_eventNames := spec_eventNames spec;
           spec_props := spec_props spec;
           spec_options := spec_options spec |}
  end.

Definition add (listener : value) : M unit :=
  match listener with
  | VListener l =>
      lr ← get_listener l;
      ets ← read_set (lsnr_eventTypes lr);
      reg ← gets registry;
      put_registry
        (with_tables (set_add l (allListeners reg))
           (add_listenersFor l ets (listenersFor reg)) reg)
  | _ => throw (TypeError "Invalid listener instance")
  end.

Definition listen (args : listen_args) : M nat :=
  listener ← makeListener args;
  add (VListener listener);;
  mret listener.

Definition once (args : listen_args) : M nat :=
  listener ← listen args;
  lr ← get_listener listener;
  write_listener listener
    {| lsnr_handler := lsnr_handler lr;
       lsnr_eventTypes := lsnr_eventTypes lr;
       lsnr_options := <["once" := VBool true]> (lsnr_options lr) |};;
  mret listener.

Definition removeAll : M unit :=
  reg ← gets registry;
  put_registry (with_tables [] ∅ reg).

Fixpoint removeListeners (ls : list nat) : M unit :=
  match ls with
  | [] => mret tt
  | listener :: rest =>
      reg ← gets registry;
      (if set_has listener (allListeners reg)
       then
         lr ← get_listener listener;
         ets ← read_set (lsnr_eventTypes lr);
         put_registry
           (with_tables (set_delete listener (allListeners reg))
              (delete_listenersFor listener ets (listenersFor reg)) reg)
       else mret tt);;
      removeListeners rest
  end.

(** The inner loop of [removeEvents()] over the listeners of [et]. *)
Fixpoint removeEvents_of (et : token) (eventListeners : list nat)
  : M unit :=
  match eventListeners with
  | [] => mret tt
  | lsnr :: rest =>
      lr ← get_listener lsnr;
      ets ← read_set (lsnr_eventTypes lr);
      write_set (lsnr_eventTypes lr) (set_delete et ets);;
      (if bool_decide (set_delete et ets = [])
       then removeListeners [lsnr]
       else mret tt);;
      removeEvents_of et rest
  end.

Fixpoint removeEvents (types : list token) : M unit :=
  match types with
  | [] => mret tt
  | et :: rest =>
      reg ← gets registry;
      match listenersFor reg !! et with
      | Some eventListeners =>
          removeEvents_of et eventListeners;;
          reg ← gets registry;
          put_registry
            (with_tables (allListeners reg)
               (<[et := []]> (listenersFor reg)) reg)
      | None => mret tt
      end;;
      removeEvents rest
  end.

Definition remove (what : value) : M unit :=
  reg ← gets registry;
  if bool_decide (what = value_of_token (reg_wildcard reg))
  then removeAll
  else match what with
       | VStr s =>
           names ← splitNames s;
           events ← read_set names;
           removeEvents events
       | VSym i d => removeEvents [TokSym i d]
       | VListener l => removeListeners [l]
       | _ => throw (TypeError "Invalid event name or listener instance")
       end.

Definition set (type : token) (opts : set_opts) : M unit :=
  reg ← gets registry;
  let data := default new_LumEventData (eventData reg !! type) in
  put_registry
    (with_eventData (<[type := set_data opts data]> (eventData reg)) reg).

(** [this.getTargets(sti)] and [sti.targets]: a [Set] is taken as it is,
    any other iterable goes through [new Set].  A [Set] returned by a
    callback has no duplicates, so it is read through [new_set] too,
    which leaves such a list as it is. *)
Definition resolve_targets : M (list value) :=
  reg ← gets registry;
  match getTargets reg with
  | FixedTargets ts => mret ts
  | DynamicTargets f =>
      s ← get_state;
      match call_targets f s with
      | ProvidedSet ts => mret (new_set ts)
      | ProvidedIterable ts => mret (new_set ts)
      | ProviderThrows v => throw (Thrown v)
      end
  end.

(** The loop over the listeners of one type.  The boolean says
    [break emitting]. *)
Fixpoint emit_listeners (ls : list nat) (ename : token) (tg : value)
    (args : nat) (sti : Status) : M (bool * Status) :=
  match ls with
  | [] => mret (false, sti)
  | lsnr :: rest =>
      if sti_multiMatch sti || negb (set_has lsnr (called sti))
      then
        let sti := sti_set_called (Some (set_add lsnr (called sti))) sti in
        '(event, sti) ← emitEvent lsnr ename tg args sti;
        let sti := sti_set_emitted (sti_emitted sti ++ [event]) sti in
        if sti_stopEmitting sti
        then mret (true, sti)
        else emit_listeners rest ename tg args sti
      else emit_listeners rest ename tg args sti
  end.

(** The loop over the requested types, for one target. *)
Fixpoint emit_types (ets : list token) (wilds : option (list nat))
    (tg : value) (args : nat) (sti : Status) : M (bool * Status) :=
  match ets with
  | [] => mret (false, sti)
  | ename :: rest =>
      reg ← gets registry;
      match listenersFor reg !! ename with
      | None => emit_types rest wilds tg args sti
      | Some listeners =>
          let listeners := match wilds with
                           | Some w => set_union listeners w
                           | None => listeners
                           end in
          '(stop, sti) ← emit_listeners listeners ename tg args sti;
          if stop : bool then mret (true, sti)
          else emit_types rest wilds tg args sti
      end
  end.

(** The loop labelled [emitting], over the targets. *)
Fixpoint emit_targets (tgs : list value) (wilds : option (list nat))
    (args : nat) (sti : Status) : M (bool * Status) :=
  match tgs with
  | [] => mret (false, sti)
  | tg :: rest =>
      let sti := sti_set_called (Some []) sti in
      ets ← read_set (sti_eventTypes sti);
      '(stop, sti) ← emit_types ets wilds tg args sti;
      if stop : bool then mret (true, sti)
      else emit_targets rest wilds args sti
  end.

(** The last loop of [emit()]: one [removeListeners(lsnr)] per listener
    of [onceRemoved]. *)
Fixpoint remove_once (ls : list nat) : M unit :=
  match ls with
  | [] => mret tt
  | lsnr :: rest => removeListeners [lsnr];; remove_once rest
  end.

Definition emit (eventTypes : types_arg) (args : list value) : M Status :=
  args ← alloc_array args;
  ets ← getEventTypes eventTypes;
  reg ← gets registry;
  let sti := {| sti_eventTypes := ets; sti_multiMatch := reg_multiMatch reg;
                sti_onceRemoved := []; sti_stopEmitting := false;
                sti_emitted := []; sti_targets := [];
                sti_targetListeners := None |} in
  tgs ← resolve_targets;
  let sti := sti_set_targets tgs sti in
  let wilds := listenersFor reg !! reg_wildcard reg in
  '(_, sti) ← emit_targets tgs wilds args sti;
  let sti := sti_set_called None sti in
  remove_once (sti_onceRemoved sti);;
  mret sti.
End registry_code.

(** ** index.js *)

(** [typeof v === 'function']. *)
Definition isFunction (v : value) : bool :=
  match v with
  | VFun _ => true
  | _ => false
  end.

(** The exported list [KNOWN_TRIGGERS], as the module sets it. *)
Definition KNOWN_TRIGGERS : list string := ["emit"; "trigger"].

(** [hasTrigger(obj)], reading the list [known] that
    [exports.KNOWN_TRIGGERS] holds at the time of the call; [obj] is
    given by the properties that can be read from it. *)
Fixpoint hasTrigger (known : list string) (obj : options) : option string :=
  match known with
  | [] => None
  | trigger :: rest =>
      if isFunction (opt_get obj trigger) then Some trigger
      else hasTrigger rest obj
  end.

(** * Notions used in the statements *)

(** The state a computation leaves, and its value if it returned. *)
Definition state_after {A} (m : M A) (s : State) : State :=
  match m s with
  | Ok _ s' | Err _ s' => s'
  end.

Definition value_of {A} (m : M A) (s : State) : option A :=
  match m s with
  | Ok a _ => Some a
  | Err _ _ => None
  end.

(** What a computation threw, if it did. *)
Definition error_of {A} (m : M A) (s : State) : option error :=
  match m s with
  | Ok _ _ => None
  | Err e _ => Some e
  end.

(** What identifies a delivery: the target, the type and the listener. *)
Definition ev_key (ev : LumEvent) : value * token * nat :=
  (ev_target ev, ev_type ev, ev_eventListener ev).

(** The composed options of the event ask for a single use. *)
Definition once_set (ev : LumEvent) : bool :=
  truthy (opt_get (ev_options ev) "once").

(** The options of an event of listener [l] and type [type], where the
    registry has a [typeDataFor] table:
    [Object.assign({}, reg.options, etd?.options, listener.options)],
    so the listener's options win over the type's, and these over the
    registry's. *)
Definition composed_options (s : State) (l : nat) (type : token)
  : option options :=
  lr ← listeners s !! l;
  tdf ← typeDataFor (registry s);
  Some (assign
          (assign (assign ∅ (reg_options (registry s)))
             (from_option td_options ∅ (tdf !! type)))
          (lsnr_options lr)).

(** The call was made with the listener tables of [s]. *)
Definition tables_seen (s : State) (c : call) : Prop :=
  call_allListeners c = allListeners (registry s)
  ∧ call_listenersFor c = listenersFor (registry s).

(** The events handed to handlers, in call order. *)
Definition handler_args (cs : list call) : list value :=
  call_arg <$> filter (λ c, call_kind_of c = HandlerCall) cs.

(** [pass s sti s' sti' evs]: from [s] and [sti], the events [evs] were
    built, delivered and pushed, in this order, and nothing else happened:
    the registry, the sets and the listeners are those of [s]. *)
Record pass (s : State) (sti : Status) (s' : State) (sti' : Status)
    (evs : list LumEvent) : Prop := {
  pass_registry : registry s' = registry s;
  pass_sets : sets s' = sets s;
  pass_listeners : listeners s' = listeners s;
  pass_events : events s' = events s ++ evs;
  pass_emitted :
    sti_emitted sti' = sti_emitted sti ++ seq (length (events s)) (length evs);
  pass_multiMatch : sti_multiMatch sti' = sti_multiMatch sti;
  pass_eventTypes : sti_eventTypes sti' = sti_eventTypes sti;
  pass_targets : sti_targets sti' = sti_targets sti;
  pass_once : ∀ l,
    l ∈ sti_onceRemoved sti' ↔
    l ∈ sti_onceRemoved sti
    ∨ ∃ ev, ev ∈ evs ∧ ev_eventListener ev = l ∧ once_set ev = true;
  pass_calls : ∃ cs,
    calls s' = calls s ++ cs
    ∧ Forall (tables_seen s) cs
    ∧ handler_args cs = VEvent <$> seq (length (events s)) (length evs);
  pass_options :
    Forall (λ ev, composed_options s (ev_eventListener ev) (ev_type ev)
                  = Some (ev_options ev)) evs;
}.

(** The deliveries of a pass, as a list: what the three loops of
    [emit()] deliver when no handler stops the pass, computed without
    running anything; [cd] is the set of listeners already called for the
    target. *)
Fixpoint plan_listeners (mm : bool) (ls cd : list nat) : list nat * list nat :=
  match ls with
  | [] => ([], cd)
  | l :: rest =>
      if mm || negb (set_has l cd)
      then let '(d, cd') := plan_listeners mm rest (set_add l cd) in
           (l :: d, cd')
      else plan_listeners mm rest cd
  end.

(** The candidate listeners of a type: none when the type has no entry in
    [listenersFor]; otherwise its listeners and the wildcard ones. *)
Definition candidates (lf : gmap token (list nat)) (wilds : option (list nat))
    (ename : token) : option (list nat) :=
  match lf !! ename with
  | None => None
  | Some ls => Some (match wilds with
                     | Some w => set_union ls w
                     | None => ls
                     end)
  end.

Fixpoint plan_types (mm : bool) (lf : gmap token (list nat))
    (wilds : option (list nat)) (ets : list token) (cd : list nat)
  : list (token * nat) * list nat :=
  match ets with
  | [] => ([], cd)
  | et :: rest =>
      match candidates lf wilds et with
      | None => plan_types mm lf wilds rest cd
      | Some ls =>
          let '(d, cd1) := plan_listeners mm ls cd in
          let '(d', cd2) := plan_types mm lf wilds rest cd1 in
          (((λ l, (et, l)) <$> d) ++ d', cd2)
      end
  end.

Definition plan (mm : bool) (lf : gmap token (list nat))
    (wilds : option (list nat)) (ets : list token) (tgs : list value)
  : list (value * token * nat) :=
  tgs ≫= λ tg, (λ d, (tg, d.1, d.2)) <$> (plan_types mm lf wilds ets []).1.

(** The requested types: the elements of the status's [eventTypes]. *)
Definition requested (s : State) (sti : Status) : list token :=
  default [] (sets s !! sti_eventTypes sti).

(** What [getEventTypes] puts into a new [Set]; nothing for a [Set]
    argument and for an invalid one. *)
Definition types_content (dl : delimiter) (types : types_arg)
  : option (list token) :=
  match types with
  | TypesString n => Some (new_set (split_tokens dl n))
  | TypesSymbol i d => Some [TokSym i d]
  | TypesIterable items => Some (new_set items)
  | TypesSet _ | TypesInvalid => None
  end.

(** Listener [l] may be in the set of type [et]: it is in
    [allListeners] and has [et] in its own [eventTypes]. *)
Definition registered_ok (s : State) (et : token) (l : nat) : bool :=
  set_has l (allListeners (registry s))
  && match listeners s !! l with
     | Some lr => match sets s !! lsnr_eventTypes lr with
                  | Some ts => set_has et ts
                  | None => false
                  end
     | None => false
     end.

(** The listener tables agree with the listeners: whoever is in the set
    of a type is in [allListeners] and has that type in its own
    [eventTypes]. *)
Definition tables_consistent (s : State) : Prop :=
  map_Forall (λ et ls, Forall (λ l, registered_ok s et l = true) ls)
    (listenersFor (registry s)).

Global Instance tables_consistent_dec s : Decision (tables_consistent s).
Proof. unfold tables_consistent. apply _. Defined.

(** The registry of [s'] is that of [s] but for the listener tables. *)
Definition only_tables_changed (s s' : State) : Prop :=
  registry s' =
    with_tables (allListeners (registry s')) (listenersFor (registry s'))
      (registry s)
  ∧ sets s' = sets s ∧ arrays s' = arrays s ∧ listeners s' = listeners s
  ∧ events s' = events s ∧ calls s' = calls s.

(** A value [getEventTypes] accepts: not an invalid one, and no
    reference to a [Set] that does not exist. *)
Definition types_valid (s : State) (types : types_arg) : Prop :=
  match types with
  | TypesInvalid => False
  | TypesSet l => is_Some (sets s !! l)
  | _ => True
  end.

(** The target callback, if there is one, returns. *)
Definition targets_available `{Callbacks} (reg : LumEventRegistry) : Prop :=
  match getTargets reg with
  | FixedTargets _ => True
  | DynamicTargets f => ∀ s v, call_targets f s ≠ ProviderThrows v
  end.

(** The new [Set] claim of [getEventTypes]: whatever it is given, the
    [Set] it returns is an object that did not exist before the call. *)
Definition returns_new_set (types : types_arg) (s : State) : Prop :=
  ∀ l s', getEventTypes types s = Ok l s' → sets s !! l = None.

(** Consistency for every type but [et0]: what holds while
    [removeEvents] works on [et0]. *)
Definition consistent_except (et0 : token) (s : State) : Prop :=
  ∀ et ls l, et ≠ et0 →
    listenersFor (registry s) !! et = Some ls → l ∈ ls →
    l ∈ allListeners (registry s)
    ∧ ∃ lr ts, listeners s !! l = Some lr
        ∧ sets s !! lsnr_eventTypes lr = Some ts ∧ et ∈ ts.

(** A word: a non-empty run of ASCII characters none of which is white
    space. *)
Definition is_word (w : list ascii) : Prop :=
  w ≠ [] ∧ Forall (λ c, is_ws c = false ∧ nat_of_ascii c < 128) w.

(** A gap: a non-empty run of white space. *)
Definition is_gap (g : list ascii) : Prop :=
  g ≠ [] ∧ Forall (λ c, is_ws c = true) g.

(** The word [w] followed by the words of [rest], each after its gap. *)
Fixpoint spaced (w : list ascii) (rest : list (list ascii * list ascii))
  : list ascii :=
  w ++ match rest with
       | [] => []
       | (gap, w') :: rest' => gap ++ spaced w' rest'
       end.

(** The set-up callback of a listener with options [opts]:
    [this.options.setupListener ?? registry.options.setupListener]. *)
Definition setupListener_of (reg : LumEventRegistry) (opts : options)
  : value :=
  match opt_get opts "setupListener" with
  | VUndef | VNull => opt_get (reg_options reg) "setupListener"
  | v => v
  end.

(** The call of the set-up callback [setup] for the new listener [l],
    made in state [s], if [setup] is a function. *)
Definition setup_calls (s : State) (setup : value) (l : nat) : list call :=
  match setup with
  | VFun f => [{| call_kind_of := SetupListenerCall; call_fn_id := f;
                  call_this := VRegistry; call_arg := VListener l;
                  call_allListeners := allListeners (registry s);
                  call_listenersFor := listenersFor (registry s) |}]
  | _ => []
  end.

(** The listener [x] is left with no type when [et] is taken from the
    types it has in [s]. *)
Definition only_type (s : State) (et : token) (x : nat) : Prop :=
  ∃ lr ts, listeners s !! x = Some lr
    ∧ sets s !! lsnr_eventTypes lr = Some ts ∧ set_delete et ts = [].

(** Some listener is a candidate for the type [et]. *)
Definition has_candidate (reg : LumEventRegistry) (et : token) : bool :=
  match candidates (listenersFor reg) (listenersFor reg !! reg_wildcard reg)
          et with
  | Some (_ :: _) => true
  | _ => false
  end.

(** [emit()] has an event to build: there is a target, and a requested
    type with a candidate. *)
Definition delivery_due (reg : LumEventRegistry) (ets : list token)
    (tgs : list value) : bool :=
  match tgs with
  | [] => false
  | _ :: _ => existsb (has_candidate reg) ets
  end.

(** The status [emit()] returns when it had nothing to deliver. *)
Definition idle_status (reg : LumEventRegistry) (ets : nat)
    (tgs : list value) : Status :=
  {| sti_eventTypes := ets; sti_multiMatch := reg_multiMatch reg;
     sti_onceRemoved := []; sti_stopEmitting := false; sti_emitted := [];
     sti_targets := tgs; sti_targetListeners := None |}.





(** What [emit()] may throw, [Dangling] apart: the [TypeError] for
    invalid event types, the one of reading [typeDataFor] where the
    registry has none, the one for a handler that cannot be called, and
    what a callback of the caller threw. *)
Definition emit_error (e : error) : Prop :=
  e = TypeError "Invalid event names"
  ∨ e = typeDataFor_undefined
  ∨ e = TypeError "handleEvent is not a function"
  ∨ ∃ v, e = Thrown v.

(** ** Scenarios *)

(** Caller code for the scenarios: function [1] asks to stop the pass,
    function [2] throws, every other function just returns; the target
    callback returns the array [[VObj 1; VObj 2; VObj 1]]. *)
Definition demo_callbacks : Callbacks :=
  {| call_fn f this arg s :=
       match f with
       | 1 => Returns (Some true)
       | 2 => Throws (VStr "boom")
       | _ => Returns None
       end;
     call_targets f s := ProvidedIterable [VObj 1; VObj 2; VObj 1] |}.

Definition default_opts : registry_opts :=
  {| o_delimiter := None; o_multiMatch := None; o_wildcard := None;
     o_others := ∅ |}.

Definition on_ (names : string) (f : nat) : M nat :=
  @listen demo_callbacks (ListenArgs (Some (TypesString names)) (VFun f) None).

(** One target, one listener on the wildcard. *)
Definition wildcard_state : State :=
  state_after (on_ "*" 0) (initial_state (TargetsSingle (VObj 1)) default_opts).

(** The same with a second listener, on ["x"]. *)
Definition wildcard_x_state : State := state_after (on_ "x" 0) wildcard_state.

Definition keep1 : set_opts :=
  {| opt_oneTime := None; opt_keepState := Some 1%Z; opt_stateful := None |}.

(** Type ["x"] keeps one state and has one listener. *)
Definition stateful_state : State :=
  state_after (on_ "x" 0)
    (state_after (set (TokStr "x") keep1)
       (initial_state (TargetsSingle (VObj 1)) default_opts)).

Definition emit_ (names : string) (args : list value) : M Status :=
  @emit demo_callbacks (TypesString names) args.

(** The same after two emits of ["x"]. *)
Definition stateful_emitted_twice : State :=
  state_after (emit_ "x" [VStr "second"])
    (state_after (emit_ "x" [VStr "first"]) stateful_state).





(** Two targets, one listener on ["a"] and ["b"]. *)
Definition two_types_state : State :=
  state_after (on_ "a b" 0)
    (initial_state (TargetsIterable [VObj 1; VObj 2]) default_opts).

Definition multi_opts : registry_opts :=
  {| o_delimiter := None; o_multiMatch := Some true; o_wildcard := None;
     o_others := ∅ |}.

(** Two targets, [multiMatch], one [once] listener on ["a"] and ["b"]. *)
Definition once_state : State :=
  state_after
    (@once demo_callbacks (ListenArgs (Some (TypesString "a b")) (VFun 0) None))
    (initial_state (TargetsIterable [VObj 1; VObj 2]) multi_opts).

(** Type ["x"] with a history of one entry, as a caller can set it up
    through [registry.eventData]; the [emit()] before it has thrown, as
    every [emit()] that reaches a listener of this registry does. *)
Definition history_state : State :=
  let s := state_after (emit_ "x" [VStr "first"]) stateful_state in
  with_registry
    (with_eventData
       (<[TokStr "x" := {| oneTime := false; keepState := 1;
                           stateData := Some [0] |}]>
          (eventData (registry s)))
       (registry s)) s.

(** A state in which a caller holds the [Set] [{"a"}], at reference 0. *)
Definition caller_set_state : State :=
  with_sets [[TokStr "a"]]
    (initial_state (TargetsSingle (VObj 1)) default_opts).

(** ** More scenarios *)

(** A new registry over one target. *)
Definition fresh_state : State :=
  initial_state (TargetsSingle (VObj 1)) default_opts.

(** A [spec] whose [listener] is an object with [handleEvent], with the
    option [once] given twice and a reserved name among the nested
    options. *)
Definition spec_with_listener : listener_spec :=
  {| spec_listener := VHandlerObj 5 3; spec_handler := VUndef;
     spec_eventTypes := None; spec_eventNames := None;
     spec_props := <["once" := VBool false]> {["tag" := VStr "p"]};
     spec_options := <["once" := VBool true]> {["handler" := VNum 1]} |}.

(** A registry whose options name the set-up callback [7]. *)
Definition setup_opts : registry_opts :=
  {| o_delimiter := None; o_multiMatch := None; o_wildcard := None;
     o_others := {["setupListener" := VFun 7]} |}.

(** A [spec] that names the set-up callback [8], or the throwing
    function [2]. *)
Definition spec_with_setup (f : nat) : listener_spec :=
  {| spec_listener := VUndef; spec_handler := VUndef;
     spec_eventTypes := None; spec_eventNames := None;
     spec_props := ∅; spec_options := {["setupListener" := VFun f]} |}.

(** [once("x", handler)] on a new registry. *)
Definition once_x_state : State :=
  state_after
    (@once demo_callbacks (ListenArgs (Some (TypesString "x")) (VFun 0) None))
    fresh_state.

(** * Properties *)

Example split_demo :
  split_tokens DelimWhitespace "  a  b c " = [TokStr "a"; TokStr "b"; TokStr "c"]
  ∧ split_tokens DelimWhitespace "" = [TokStr ""]
  ∧ split_tokens (DelimString ",") "a,,b" = [TokStr "a"; TokStr ""; TokStr "b"]
  ∧ split_tokens (DelimString "::") "a::b:c" = [TokStr "a"; TokStr "b:c"].
Proof. vm_compute. done. Qed.

(** ** Sets as lists *)

Section js_set_facts.
Context {A : Type} `{EqDecision A}.
Implicit Types (x y : A) (s a b : list A).

Lemma set_has_true x s : set_has x s = true ↔ x ∈ s.
Proof. unfold set_has. by rewrite bool_decide_eq_true. Qed.

Lemma set_has_false x s : set_has x s = false ↔ x ∉ s.
Proof. unfold set_has. by rewrite bool_decide_eq_false. Qed.

Lemma elem_of_set_add y x s : y ∈ set_add x s ↔ y = x ∨ y ∈ s.
Proof.
  unfold set_add. destruct (set_has x s) eqn:E.
  - apply set_has_true in E. naive_solver.
  - rewrite elem_of_app, list_elem_of_singleton. naive_solver.
Qed.

Lemma NoDup_set_add x s : NoDup s → NoDup (set_add x s).
Proof.
  intros Hs. unfold set_add. destruct (set_has x s) eqn:E; [done|].
  apply set_has_false in E. apply NoDup_app. split_and!; [done| |apply NoDup_singleton].
  intros y Hy ->%list_elem_of_singleton. done.
Qed.

Lemma elem_of_set_delete y x s : y ∈ set_delete x s ↔ y ≠ x ∧ y ∈ s.
Proof. unfold set_delete. by rewrite list_elem_of_filter. Qed.

Lemma set_delete_absent x s : x ∉ s → set_delete x s = s.
Proof.
  intros Hx. unfold set_delete. induction s as [|y s IH]; [done|].
  apply not_elem_of_cons in Hx as [? ?].
  rewrite filter_cons_True by done. f_equal. auto.
Qed.

Lemma elem_of_set_union y a b : y ∈ set_union a b ↔ y ∈ a ∨ y ∈ b.
Proof.
  unfold set_union. revert a. induction b as [|x b IH]; intros a; simpl.
  - rewrite elem_of_nil. naive_solver.
  - rewrite IH, elem_of_set_add, elem_of_cons. naive_solver.
Qed.

Lemma NoDup_set_union a b : NoDup a → NoDup (set_union a b).
Proof.
  unfold set_union. revert a. induction b as [|x b IH]; intros a Ha; simpl; [done|].
  apply IH. by apply NoDup_set_add.
Qed.

Lemma elem_of_new_set y s : y ∈ new_set s ↔ y ∈ s.
Proof.
  unfold new_set. rewrite (elem_of_set_union y [] s), elem_of_nil. naive_solver.
Qed.

Lemma NoDup_new_set s : NoDup (new_set s).
Proof. apply (NoDup_set_union [] s), NoDup_nil_2. Qed.
End js_set_facts.

(** ** Running the monad *)

Lemma bind_Ok {A B} (m : M A) (f : A → M B) s b s' :
  (m ≫= f) s = Ok b s' ↔ ∃ a s1, m s = Ok a s1 ∧ f a s1 = Ok b s'.
Proof. unfold mbind, M_bind. destruct (m s); naive_solver. Qed.

Lemma bind_run {A B} (m : M A) (f : A → M B) s :
  (m ≫= f) s = match m s with Ok a s1 => f a s1 | Err e s1 => Err e s1 end.
Proof. done. Qed.

Lemma ret_run {A} (a : A) s : (mret a : M A) s = Ok a s.
Proof. done. Qed.

Lemma bind_gets {A B} (f : State → A) (k : A → M B) s :
  (gets f ≫= k) s = k (f s) s.
Proof. done. Qed.

Lemma bind_get_state {B} (k : State → M B) s : (get_state ≫= k) s = k s s.
Proof. done. Qed.

Lemma bind_ret {A B} (a : A) (k : A → M B) s : (mret a ≫= k) s = k a s.
Proof. done. Qed.

Lemma bind_modify {B} (f : State → State) (k : unit → M B) s :
  (modify f ≫= k) s = k tt (f s).
Proof. done. Qed.

Lemma bind_throw {A B} (e : error) (k : A → M B) s :
  (throw e ≫= k) s = Err e s.
Proof. done. Qed.

Lemma bind_deref {A B} (store : State → list A) i (k : A → M B) s :
  (deref store i ≫= k) s =
  match store s !! i with Some x => k x s | None => Err Dangling s end.
Proof. unfold mbind, M_bind, deref. by destruct (store s !! i). Qed.

Lemma bind_bind {A B C} (m : M A) (f : A → M B) (g : B → M C) s :
  ((m ≫= f) ≫= g) s = (m ≫= λ a, f a ≫= g) s.
Proof. unfold mbind, M_bind. by destruct (m s). Qed.

(** [run_step in H] runs the state primitives at the head of the
    computation in [H]. *)
Ltac run_unfold :=
  unfold read_set, read_array, get_listener, get_event, write_set,
    write_array, write_listener, put_registry in *.
Ltac run_step H :=
  repeat (first
    [ rewrite bind_gets in H | rewrite bind_get_state in H
    | rewrite bind_ret in H | rewrite bind_modify in H
    | rewrite bind_throw in H | rewrite bind_deref in H
    | rewrite ret_run in H ]; cbv beta in H).

(** ** Outcomes *)

(** ** One dispatch

    A dispatch returns only on a registry to which the caller has
    assigned a [typeDataFor] map.  The lemmas of this part are about
    every state: they say what a dispatch that returned has done. *)

Lemma pass_refl s sti : pass s sti s sti [].
Proof.
  split; try done; simpl.
  - by rewrite app_nil_r.
  - by rewrite app_nil_r.
  - intros l. split; [auto|]. intros [?|(ev & []%elem_of_nil & _)]; done.
  - exists []. by rewrite app_nil_r.
Qed.

Lemma tables_seen_eq s s' c :
  registry s' = registry s → tables_seen s' c → tables_seen s c.
Proof. unfold tables_seen. by intros ->. Qed.

Lemma handler_args_app cs1 cs2 :
  handler_args (cs1 ++ cs2) = handler_args cs1 ++ handler_args cs2.
Proof. unfold handler_args. by rewrite filter_app, fmap_app. Qed.

Lemma pass_trans s1 sti1 s2 sti2 s3 sti3 evs1 evs2 :
  pass s1 sti1 s2 sti2 evs1 → pass s2 sti2 s3 sti3 evs2 →
  pass s1 sti1 s3 sti3 (evs1 ++ evs2).
Proof.
  intros [R1 S1 L1 E1 M1 MM1 ET1 T1 O1 (cs1 & C1 & F1 & H1) P1]
         [R2 S2 L2 E2 M2 MM2 ET2 T2 O2 (cs2 & C2 & F2 & H2) P2].
  split; [..|apply Forall_app; split; [done|];
    eapply Forall_impl; [exact P2|]; intros ev; unfold composed_options;
    by rewrite R1, L1].
  - congruence.
  - congruence.
  - congruence.
  - by rewrite E2, E1, (assoc_L (++)).
  - rewrite M2, M1, E1, !length_app, seq_app, (assoc_L (++)). done.
  - congruence.
  - congruence.
  - congruence.
  - intros l. rewrite O2, O1. setoid_rewrite elem_of_app. naive_solver.
  - exists (cs1 ++ cs2). split_and!.
    + by rewrite C2, C1, (assoc_L (++)).
    + apply Forall_app. split; [done|].
      eapply Forall_impl; [exact F2|]. intros c. by apply tables_seen_eq.
    + rewrite handler_args_app, H1, H2, E1, !length_app, seq_app, fmap_app.
      done.
Qed.

(** The status is [sti] up to its stop flag. *)
Lemma sti_set_stop_id sti : sti_set_stop (sti_stopEmitting sti) sti = sti.
Proof. by destruct sti. Qed.

Section dispatch_facts.
Context `{Callbacks}.

Lemma invoke_Ok k f this arg sti s sti' s' :
  invoke k f this arg sti s = Ok sti' s' →
  (∃ b, sti' = sti_set_stop b sti)
  ∧ s' = with_calls
      (calls s ++ [{| call_kind_of := k; call_fn_id := f;
                      call_this := this; call_arg := arg;
                      call_allListeners := allListeners (registry s);
                      call_listenersFor := listenersFor (registry s) |}]) s.
Proof.
  unfold invoke. destruct (call_fn f this arg s) as [[b|]|v]; intros ?; simplify_eq.
  - eauto.
  - split; [|done]. exists (sti_stopEmitting sti'). by rewrite sti_set_stop_id.
Qed.

(** The constructor builds one event with the given listener, target
    and type, and appends it to the store; it makes no handler call. *)
Lemma LumEvent_constructor_Ok lsnr tg type args sti s e sti' s' :
  LumEvent_constructor lsnr tg type args sti s = Ok (e, sti') s' →
  e = length (events s)
  ∧ (∃ b, sti' = sti_set_stop b sti)
  ∧ registry s' = registry s ∧ sets s' = sets s
  ∧ listeners s' = listeners s
  ∧ ∃ ev cs, events s' = events s ++ [ev]
      ∧ ev_key ev = (tg, type, lsnr)
      ∧ composed_options s lsnr type = Some (ev_options ev)
      ∧ calls s' = calls s ++ cs
      ∧ Forall (tables_seen s) cs
      ∧ handler_args cs = [].
Proof.
  unfold LumEvent_constructor. intros Hrun. run_unfold. run_step Hrun.
  unfold composed_options.
  destruct (typeDataFor (registry s)) as [tdf|]; [|done]. run_step Hrun.
  destruct (listeners s !! lsnr) as [l|]; [|done]. run_step Hrun.
  destruct (arrays s !! args) as [a|]; [|done].
  apply bind_Ok in Hrun as (ev & s2 & Hev & Hrun).
  apply bind_Ok in Hrun as (e0 & s3 & [= <- <-] & Hrun).
  apply bind_Ok in Hrun as (sti1 & s4 & Hsetup & [= <- <- <-]).
  assert (registry s2 = registry s ∧ sets s2 = sets s
          ∧ listeners s2 = listeners s ∧ events s2 = events s
          ∧ calls s2 = calls s
          ∧ ev_key ev = (tg, type, lsnr)
          ∧ ev_options ev =
              assign
                (assign (assign ∅ (reg_options (registry s)))
                   (from_option td_options ∅
                      (tdf !! type)))
                (lsnr_options l))
    as (R2 & S2 & L2 & E2 & C2 & K & O).
  { destruct a as [|v rest]; [|destruct v]; run_step Hev;
      try (destruct (events s !! _) as [prev|]; [|done]; run_step Hev);
      by simplify_eq. }
  split; [done|].
  assert (∀ b cs,
    sti1 = sti_set_stop b sti →
    s4 = with_calls (calls s ++ cs) (with_events (events s2 ++ [ev]) s2) →
    Forall (tables_seen s) cs → handler_args cs = [] →
    (∃ b, sti1 = sti_set_stop b sti) ∧ registry s4 = registry s
    ∧ sets s4 = sets s ∧ listeners s4 = listeners s
    ∧ ∃ ev cs, events s4 = events s ++ [ev] ∧ ev_key ev = (tg, type, lsnr)
        ∧ Some (assign
                  (assign (assign ∅ (reg_options (registry s)))
                     (from_option td_options ∅
                        (tdf !! type)))
                  (lsnr_options l)) = Some (ev_options ev)
        ∧ calls s4 = calls s ++ cs ∧ Forall (tables_seen s) cs
        ∧ handler_args cs = []) as Hfin.
  { intros b cs -> -> Hcs Hh. split; [eauto|]. simpl. split_and!; try done.
    exists ev, cs. by rewrite E2, O. }
  destruct (opt_get _ "setupEvent") eqn:Hopt;
    try (rewrite ret_run in Hsetup; simplify_eq;
         apply (Hfin (sti_stopEmitting sti1) []);
         [by rewrite sti_set_stop_id
         |by destruct s2; simpl in *; rewrite app_nil_r; subst
         |done|done]).
  apply invoke_Ok in Hsetup as ([b ->] & ->). simpl.
  eapply (Hfin b [_]); [done|simpl; by rewrite C2| |done].
  apply Forall_singleton. unfold tables_seen. simpl. by rewrite R2.
Qed.
(** The constructor on the forwarding path: the new event adopts the
    data and the original of the forwarded one and records it as
    [prevEvent]; its [args] is the array it was given, from which the
    forwarded event has been removed. *)
Lemma LumEvent_constructor_forwarding lsnr tg type args sti s e sti' s'
    ao prev rest :
  arrays s !! args = Some (VEvent ao :: rest) →
  events s !! ao = Some prev →
  LumEvent_constructor lsnr tg type args sti s = Ok (e, sti') s' →
  arrays s' !! args = Some rest
  ∧ ∃ ev, events s' !! e = Some ev
      ∧ ev_args ev = args
      ∧ ev_prevEvent ev = Some ao
      ∧ ev_data ev = ev_data prev
      ∧ ev_origEvent ev = ev_origEvent prev.
Proof.
  unfold LumEvent_constructor. intros Ha Hprev Hrun.
  run_unfold. run_step Hrun.
  destruct (typeDataFor (registry s)) as [tdf|]; [|done]. run_step Hrun.
  destruct (listeners s !! lsnr) as [l|]; [|done]. run_step Hrun.
  rewrite Ha in Hrun. rewrite bind_bind, bind_deref, Hprev in Hrun.
  rewrite bind_bind, bind_modify, bind_ret in Hrun.
  apply bind_Ok in Hrun as (e0 & s3 & [= <- <-] & Hrun).
  apply bind_Ok in Hrun as (sti1 & s4 & Hsetup & [= <- <- <-]).
  match type of Hsetup with
  | context [with_events ?x ?y] => set (s3 := with_events x y) in *
  end.
  assert (arrays s4 = arrays s3 ∧ events s4 = events s3) as [-> ->].
  { destruct (opt_get _ "setupEvent"); rewrite ?ret_run in Hsetup;
      simplify_eq; try done.
    by apply invoke_Ok in Hsetup as (_ & ->). }
  simpl. split.
  - apply list_lookup_insert_eq. by eapply lookup_lt_Some.
  - eexists. rewrite lookup_app_r, Nat.sub_diag by done. by split_and!.
Qed.

(** Off that path the constructor leaves every array as it is. *)
Lemma LumEvent_constructor_keeps_args lsnr tg type args sti s e sti' s' a :
  arrays s !! args = Some a →
  (∀ ao, head a ≠ Some (VEvent ao)) →
  LumEvent_constructor lsnr tg type args sti s = Ok (e, sti') s' →
  arrays s' = arrays s.
Proof.
  unfold LumEvent_constructor. intros Ha Hhd Hrun.
  run_unfold. run_step Hrun.
  destruct (typeDataFor (registry s)) as [tdf|]; [|done]. run_step Hrun.
  destruct (listeners s !! lsnr) as [l|]; [|done]. run_step Hrun.
  rewrite Ha in Hrun.
  apply bind_Ok in Hrun as (ev & s2 & Hev & Hrun).
  apply bind_Ok in Hrun as (e0 & s3 & [= <- <-] & Hrun).
  apply bind_Ok in Hrun as (sti1 & s4 & Hsetup & [= <- <- <-]).
  assert (arrays s2 = arrays s) as <-.
  { destruct a as [|v rest]; [|destruct v]; rewrite ?ret_run in Hev;
      simplify_eq; try done.
    by destruct (Hhd e). }
  destruct (opt_get _ "setupEvent"); rewrite ?ret_run in Hsetup;
    simplify_eq; try done.
  by apply invoke_Ok in Hsetup as (_ & ->).
Qed.

Lemma emitEvent_pass lsnr type tg args sti s e sti' s' :
  emitEvent lsnr type tg args sti s = Ok (e, sti') s' →
  ∃ ev, pass s sti s' (sti_set_emitted (sti_emitted sti' ++ [e]) sti') [ev]
    ∧ ev_key ev = (tg, type, lsnr)
    ∧ sti_targetListeners sti' = sti_targetListeners sti.
Proof.
  unfold emitEvent. intros Hrun.
  apply bind_Ok in Hrun as ([e0 sti1] & s1 & Hc & Hrun).
  apply LumEvent_constructor_Ok in Hc
    as (-> & [b ->] & R1 & S1 & L1 & ev & cs & E1 & K & Hopts & C1 & F1
        & H1).
  run_unfold. run_step Hrun.
  destruct (listeners s1 !! lsnr) as [l|]; [|done]. run_step Hrun.
  rewrite E1, lookup_app_r, Nat.sub_diag in Hrun by done. simpl in Hrun.
  apply bind_Ok in Hrun as (sti2 & s2 & Hh & Hrun).
  rewrite ret_run in Hrun.
  assert (∃ b' c, sti2 = sti_set_stop b' sti
    ∧ s2 = with_calls (calls s1 ++ [c]) s1
    ∧ call_kind_of c = HandlerCall ∧ call_arg c = VEvent (length (events s))
    ∧ tables_seen s c) as (b' & c & -> & -> & Kc & Ac & Tc).
  { destruct (lsnr_handler l); try done;
      apply invoke_Ok in Hh as ([b' ->] & ->);
      (eexists b', _; split_and!; [by destruct sti|done|done|done|];
       unfold tables_seen; simpl; by rewrite R1). }
  injection Hrun as <- <- <-.
  exists ev. split_and!; [|done|by destruct (truthy _)].
  split; simpl; try done.
  - by destruct (truthy _).
  - by destruct (truthy _).
  - by destruct (truthy _).
  - by destruct (truthy _).
  - intros l'. fold (once_set ev). destruct (once_set ev) eqn:Ho; simpl.
    + rewrite elem_of_set_add. split.
      * intros [->|?]; [|by left]. right. exists ev.
        rewrite list_elem_of_singleton. by injection K.
      * intros [?|(ev' & ->%list_elem_of_singleton & <- & _)]; [by right|].
        left. by injection K.
    + split; [by left|].
      intros [?|(ev' & ->%list_elem_of_singleton & _ & ?)]; [done|congruence].
  - exists (cs ++ [c]). split_and!.
    + by rewrite C1, (assoc_L (++)).
    + apply Forall_app. split; [done|]. by apply Forall_singleton.
    + rewrite handler_args_app, H1. unfold handler_args.
      rewrite filter_cons_True, filter_nil by done. simpl. by rewrite Ac.
  - apply Forall_singleton. injection K as _ -> ->. done.
Qed.
Lemma pass_set_called_l c s sti s' sti' evs :
  pass s (sti_set_called c sti) s' sti' evs → pass s sti s' sti' evs.
Proof. intros []; by split. Qed.

(** The loop over the listeners of one type delivers a prefix of its
    plan, and all of it unless a handler stopped the pass. *)
Lemma emit_listeners_pass ls ename tg args sti s stop sti' s' :
  sti_stopEmitting sti = false →
  emit_listeners ls ename tg args sti s = Ok (stop, sti') s' →
  ∃ evs, pass s sti s' sti' evs
    ∧ sti_stopEmitting sti' = stop
    ∧ ev_key <$> evs `prefix_of`
        (λ l, (tg, ename, l)) <$>
          (plan_listeners (sti_multiMatch sti) ls (called sti)).1
    ∧ (stop = false →
       ev_key <$> evs =
         (λ l, (tg, ename, l)) <$>
           (plan_listeners (sti_multiMatch sti) ls (called sti)).1
       ∧ called sti' =
           (plan_listeners (sti_multiMatch sti) ls (called sti)).2).
Proof.
  revert sti s. induction ls as [|l ls IH]; intros sti s Hstop Hrun; simpl in *.
  { rewrite ret_run in Hrun. simplify_eq. exists [].
    split_and!; [apply pass_refl|done|done|done]. }
  destruct (sti_multiMatch sti || negb (set_has l (called sti))) eqn:Hc;
    [|by apply IH].
  apply bind_Ok in Hrun as ([e sti1] & s1 & He & Hrun).
  apply emitEvent_pass in He as (ev & Hp & K & Hcd).
  apply pass_set_called_l in Hp.
  set (sti2 := sti_set_emitted (sti_emitted sti1 ++ [e]) sti1) in *.
  assert (sti_multiMatch sti2 = sti_multiMatch sti) as Hmm
    by apply (pass_multiMatch _ _ _ _ _ Hp).
  assert (called sti2 = set_add l (called sti)) as Hcalled.
  { unfold called at 1. simpl. by rewrite Hcd. }
  destruct (plan_listeners (sti_multiMatch sti) ls (set_add l (called sti)))
    as [d cd'] eqn:Hplan. simpl.
  assert (sti_stopEmitting sti2 = sti_stopEmitting sti1) as Hstop2 by done.
  destruct (sti_stopEmitting sti1) eqn:Hstop1.
  - rewrite ret_run in Hrun. simplify_eq. exists [ev].
    split_and!; [done|done| |done].
    simpl. rewrite K. by apply prefix_cons, prefix_nil.
  - apply IH in Hrun as (evs & Hp' & Hs' & Hpre & Hfull); [|done].
    rewrite Hmm, Hcalled, Hplan in Hpre, Hfull. simpl in *.
    exists ([ev] ++ evs). split_and!.
    + by eapply pass_trans.
    + done.
    + simpl. rewrite K. by apply prefix_cons.
    + intros Hns. destruct (Hfull Hns) as [Hk Hcd']. split; [|done].
      rewrite fmap_app, Hk. simpl. by rewrite K.
Qed.
(** The same for the loop over the requested types. *)
Lemma emit_types_pass ets wilds tg args sti s stop sti' s' :
  sti_stopEmitting sti = false →
  emit_types ets wilds tg args sti s = Ok (stop, sti') s' →
  ∃ evs, pass s sti s' sti' evs
    ∧ sti_stopEmitting sti' = stop
    ∧ ev_key <$> evs `prefix_of`
        (λ d, (tg, d.1, d.2)) <$>
          (plan_types (sti_multiMatch sti) (listenersFor (registry s))
             wilds ets (called sti)).1
    ∧ (stop = false →
       ev_key <$> evs =
         (λ d, (tg, d.1, d.2)) <$>
           (plan_types (sti_multiMatch sti) (listenersFor (registry s))
              wilds ets (called sti)).1
       ∧ called sti' =
           (plan_types (sti_multiMatch sti) (listenersFor (registry s))
              wilds ets (called sti)).2).
Proof.
  revert sti s. induction ets as [|et ets IH]; intros sti s Hstop Hrun; simpl in *.
  { rewrite ret_run in Hrun. simplify_eq. exists [].
    split_and!; [apply pass_refl|done|done|done]. }
  rewrite bind_gets in Hrun. unfold candidates.
  destruct (listenersFor (registry s) !! et) as [ls0|] eqn:Hls; [|by apply IH].
  set (ls := match wilds with Some w => set_union ls0 w | None => ls0 end) in *.
  apply bind_Ok in Hrun as ([stop1 sti1] & s1 & Hl & Hrun).
  apply emit_listeners_pass in Hl as (evs1 & Hp1 & Hs1 & Hpre1 & Hfull1); [|done].
  destruct (plan_listeners (sti_multiMatch sti) ls (called sti))
    as [d cd1] eqn:Hplan1. simpl in *.
  destruct (plan_types (sti_multiMatch sti) (listenersFor (registry s)) wilds
              ets cd1) as [d' cd2] eqn:Hplan2. simpl.
  rewrite fmap_app, <-list_fmap_compose.
  change ((λ d0 : token * nat, (tg, d0.1, d0.2)) ∘ (λ l, (et, l)))
    with (λ l : nat, (tg, et, l)).
  destruct stop1.
  - rewrite ret_run in Hrun. simplify_eq. exists evs1.
    split_and!; [done|done| |done]. by apply prefix_app_r.
  - apply IH in Hrun as (evs2 & Hp2 & Hs2 & Hpre2 & Hfull2); [|done].
    destruct (Hfull1 eq_refl) as [Hk1 Hcd1].
    rewrite (pass_multiMatch _ _ _ _ _ Hp1), (pass_registry _ _ _ _ _ Hp1),
      Hcd1, Hplan2 in Hpre2, Hfull2. simpl in *.
    exists (evs1 ++ evs2). split_and!.
    + by eapply pass_trans.
    + done.
    + rewrite fmap_app, Hk1. by apply prefix_app.
    + intros Hns. destruct (Hfull2 Hns) as [Hk2 Hcd2]. split; [|done].
      by rewrite fmap_app, Hk1, Hk2.
Qed.

(** And for the loop over the targets: the deliveries are a prefix of
    [plan], and all of it unless a handler stopped the pass. *)
Lemma emit_targets_pass tgs wilds args sti s stop sti' s' :
  sti_stopEmitting sti = false →
  emit_targets tgs wilds args sti s = Ok (stop, sti') s' →
  ∃ evs, pass s sti s' sti' evs
    ∧ sti_stopEmitting sti' = stop
    ∧ ev_key <$> evs `prefix_of`
        plan (sti_multiMatch sti) (listenersFor (registry s)) wilds
          (requested s sti) tgs
    ∧ (stop = false →
       ev_key <$> evs =
         plan (sti_multiMatch sti) (listenersFor (registry s)) wilds
           (requested s sti) tgs).
Proof.
  revert sti s. induction tgs as [|tg tgs IH]; intros sti s Hstop Hrun;
    simpl in *.
  { rewrite ret_run in Hrun. simplify_eq. exists [].
    split_and!; [apply pass_refl|done|done|done]. }
  unfold read_set in Hrun. rewrite bind_deref in Hrun. simpl in Hrun.
  unfold requested.
  destruct (sets s !! sti_eventTypes sti) as [ets|] eqn:Hets; [|done]. simpl.
  apply bind_Ok in Hrun as ([stop1 sti1] & s1 & Ht & Hrun).
  apply emit_types_pass in Ht as (evs1 & Hp1 & Hs1 & Hpre1 & Hfull1); [|done].
  apply pass_set_called_l in Hp1. simpl in *.
  change (called (sti_set_called (Some []) sti)) with (@nil nat) in *.
  unfold plan. simpl. fold (plan (sti_multiMatch sti)
    (listenersFor (registry s)) wilds ets tgs).
  destruct stop1.
  - rewrite ret_run in Hrun. simplify_eq. exists evs1.
    split_and!; [done|done| |done]. by apply prefix_app_r.
  - apply IH in Hrun as (evs2 & Hp2 & Hs2 & Hpre2 & Hfull2); [|done].
    destruct (Hfull1 eq_refl) as [Hk1 _].
    unfold requested in Hpre2, Hfull2.
    rewrite (pass_multiMatch _ _ _ _ _ Hp1), (pass_registry _ _ _ _ _ Hp1),
      (pass_sets _ _ _ _ _ Hp1), (pass_eventTypes _ _ _ _ _ Hp1), Hets
      in Hpre2, Hfull2. simpl in *.
    exists (evs1 ++ evs2). split_and!.
    + by eapply pass_trans.
    + done.
    + rewrite fmap_app, Hk1. by apply prefix_app.
    + intros Hns. by rewrite fmap_app, Hk1, (Hfull2 Hns).
Qed.
End dispatch_facts.

(** ** Removing listeners *)

Lemma tables_consistent_spec s :
  tables_consistent s ↔
  ∀ et ls l, listenersFor (registry s) !! et = Some ls → l ∈ ls →
    l ∈ allListeners (registry s)
    ∧ ∃ lr ts, listeners s !! l = Some lr
        ∧ sets s !! lsnr_eventTypes lr = Some ts ∧ et ∈ ts.
Proof.
  unfold tables_consistent, map_Forall, registered_ok.
  setoid_rewrite Forall_forall. setoid_rewrite andb_true_iff.
  setoid_rewrite set_has_true.
  split; intros Hc et ls l Hls Hl; specialize (Hc et ls Hls l Hl).
  - destruct Hc as [? Hc]. split; [done|].
    destruct (listeners s !! l) as [lr|]; [|done].
    destruct (sets s !! lsnr_eventTypes lr) as [ts|] eqn:Hts; [|done].
    apply set_has_true in Hc. by exists lr, ts.
  - destruct Hc as [? (lr & ts & -> & -> & ?)]. by rewrite set_has_true.
Qed.

Lemma set_delete_idemp (l : nat) (ls : list nat) :
  set_delete l (set_delete l ls) = set_delete l ls.
Proof.
  apply set_delete_absent. rewrite elem_of_set_delete. naive_solver.
Qed.

Lemma lookup_delete_listenersFor l ets lf et :
  delete_listenersFor l ets lf !! et =
  if bool_decide (et ∈ ets) then set_delete l <$> lf !! et else lf !! et.
Proof.
  unfold delete_listenersFor. revert lf.
  induction ets as [|e ets IH]; intros lf; simpl; [done|].
  rewrite IH. clear IH.
  destruct (decide (et = e)) as [->|Hne].
  - rewrite (bool_decide_eq_true_2 (e ∈ e :: ets)) by apply list_elem_of_here.
    destruct (lf !! e) as [lset|] eqn:He.
    + rewrite lookup_insert_eq. simpl.
      case_bool_decide; simpl; by rewrite ?set_delete_idemp.
    + rewrite He. by case_bool_decide.
  - assert ((match lf !! e with
             | Some lset => <[e:=set_delete l lset]> lf
             | None => lf
             end) !! et = lf !! et) as ->.
    { destruct (lf !! e); [by rewrite lookup_insert_ne|done]. }
    assert (bool_decide (et ∈ e :: ets) = bool_decide (et ∈ ets)) as ->; [|done].
    apply bool_decide_ext. rewrite elem_of_cons. naive_solver.
Qed.

Lemma only_tables_changed_refl s : only_tables_changed s s.
Proof. split_and!; try done. by destruct (registry s). Qed.

Lemma only_tables_changed_trans s1 s2 s3 :
  only_tables_changed s1 s2 → only_tables_changed s2 s3 →
  only_tables_changed s1 s3.
Proof.
  intros (R1 & ? & ? & ? & ? & ?) (R2 & ? & ? & ? & ? & ?).
  split_and!; try congruence.
  rewrite R2 at 1. rewrite R1. done.
Qed.

Section removal_facts.
Context `{Callbacks}.

(** [removeListeners(l)]: [l] leaves [allListeners], and the sets of the
    types of its own [eventTypes]; if it was not in [allListeners],
    nothing changes. *)
Lemma removeListeners_one l s s' :
  removeListeners [l] s = Ok tt s' →
  only_tables_changed s s'
  ∧ allListeners (registry s') = set_delete l (allListeners (registry s))
  ∧ (l ∉ allListeners (registry s) →
     listenersFor (registry s') = listenersFor (registry s))
  ∧ (l ∈ allListeners (registry s) →
     ∃ lr ets, listeners s !! l = Some lr
       ∧ sets s !! lsnr_eventTypes lr = Some ets
       ∧ listenersFor (registry s') =
           delete_listenersFor l ets (listenersFor (registry s))).
Proof.
  simpl. intros Hrun. rewrite bind_gets in Hrun.
  destruct (set_has l (allListeners (registry s))) eqn:Hin.
  - apply set_has_true in Hin. run_unfold.
    rewrite bind_bind, bind_deref in Hrun. simpl in Hrun.
    destruct (listeners s !! l) as [lr|] eqn:Hlr; [|done].
    rewrite bind_bind, bind_deref in Hrun. simpl in Hrun.
    destruct (sets s !! lsnr_eventTypes lr) as [ets|] eqn:Hets; [|done].
    rewrite bind_modify, ret_run in Hrun. simplify_eq. simpl.
    split_and!; try done. intros _. by exists lr, ets.
  - apply set_has_false in Hin. rewrite bind_ret, ret_run in Hrun. simplify_eq.
    split_and!; [apply only_tables_changed_refl|by rewrite set_delete_absent|
                 done|done].
Qed.

(** After it, [l] is in no table, provided the tables were consistent;
    the tables stay consistent and only shrink. *)
Lemma removeListeners_one_absent l s s' :
  tables_consistent s →
  removeListeners [l] s = Ok tt s' →
  only_tables_changed s s'
  ∧ tables_consistent s'
  ∧ (l ∉ allListeners (registry s'))
  ∧ (∀ et ls, listenersFor (registry s') !! et = Some ls → l ∉ ls)
  ∧ (∀ x, x ∈ allListeners (registry s') → x ∈ allListeners (registry s))
  ∧ (∀ et ls' x, listenersFor (registry s') !! et = Some ls' → x ∈ ls' →
       (∃ ls, listenersFor (registry s) !! et = Some ls ∧ x ∈ ls)).
Proof.
  intros Hc Hrun.
  apply removeListeners_one in Hrun as (Hotc & Hal & Hout & Hin).
  pose proof Hotc as (_ & HS & _ & HL & _ & _).
  rewrite tables_consistent_spec in Hc.
  assert (∀ et ls' x, listenersFor (registry s') !! et = Some ls' → x ∈ ls' →
           x ≠ l ∧ ∃ ls, listenersFor (registry s) !! et = Some ls ∧ x ∈ ls)
    as Hshrink.
  { intros et ls' x Hls' Hx.
    destruct (decide (l ∈ allListeners (registry s))) as [Hl|Hl].
    - destruct (Hin Hl) as (lr & ets & Hlr & Hets & Hlf).
      rewrite Hlf, lookup_delete_listenersFor in Hls'.
      case_bool_decide as Het.
      + destruct (listenersFor (registry s) !! et) as [ls|] eqn:Hls;
          simplify_eq/=. apply elem_of_set_delete in Hx as [? ?]. eauto.
      + split; [|eauto]. intros ->.
        destruct (Hc et ls' l Hls' Hx) as (_ & lr' & ts & ? & ? & ?).
        naive_solver.
    - rewrite (Hout Hl) in Hls'. split; [|eauto]. intros ->.
      by destruct (Hc et ls' l Hls' Hx) as (? & _). }
  split_and!.
  - done.
  - rewrite tables_consistent_spec. intros et ls' x Hls' Hx.
    destruct (Hshrink et ls' x Hls' Hx) as (Hne & ls & Hls & Hxls).
    destruct (Hc et ls x Hls Hxls) as (Hxal & lr & ts & ? & ? & ?).
    split.
    + rewrite Hal, elem_of_set_delete. done.
    + exists lr, ts. by rewrite HL, HS.
  - rewrite Hal, elem_of_set_delete. naive_solver.
  - intros et ls Hls Hl. by destruct (Hshrink et ls l Hls Hl).
  - intros x. rewrite Hal, elem_of_set_delete. naive_solver.
  - intros et ls' x Hls' Hx. by destruct (Hshrink et ls' x Hls' Hx).
Qed.

(** The last loop of [emit()] leaves none of [ls] in the tables. *)
Lemma remove_once_absent ls s s' :
  tables_consistent s →
  remove_once ls s = Ok tt s' →
  only_tables_changed s s'
  ∧ tables_consistent s'
  ∧ (∀ x, x ∈ allListeners (registry s') → x ∈ allListeners (registry s))
  ∧ (∀ et ls' x, listenersFor (registry s') !! et = Some ls' → x ∈ ls' →
       (∃ ls, listenersFor (registry s) !! et = Some ls ∧ x ∈ ls))
  ∧ (∀ l, l ∈ ls →
      (l ∉ allListeners (registry s'))
      ∧ (∀ et ls', listenersFor (registry s') !! et = Some ls' → l ∉ ls')).
Proof.
  revert s. induction ls as [|l ls IH]; intros s Hc Hrun.
  { simpl in Hrun. rewrite ret_run in Hrun. simplify_eq.
    split_and!; [apply only_tables_changed_refl|done|done|eauto|].
    by intros l ?%elem_of_nil. }
  cbn [remove_once] in Hrun.
  apply bind_Ok in Hrun as ([] & s1 & H1 & Hrun).
  apply removeListeners_one_absent in H1
    as (Ho1 & Hc1 & Hl1 & Hlf1 & Hal1 & Hsh1); [|done].
  apply IH in Hrun as (Ho2 & Hc2 & Hal2 & Hsh2 & Habs); [|done].
  split_and!.
  - by eapply only_tables_changed_trans.
  - done.
  - auto.
  - intros et ls' x Hls' Hx.
    destruct (Hsh2 et ls' x Hls' Hx) as (ls1 & ? & ?). eauto.
  - intros x [->|Hx]%elem_of_cons; [|by apply Habs]. split.
    + intros Hx. by apply Hl1, Hal2.
    + intros et ls' Hls' Hx.
      destruct (Hsh2 et ls' l Hls' Hx) as (ls1 & ? & ?). by eapply Hlf1.
Qed.
End removal_facts.

(** ** The whole of [emit()] *)

Section emit_facts.
Context `{Callbacks}.

Lemma getEventTypes_Ok types s l s' :
  getEventTypes types s = Ok l s' →
  (types = TypesSet l ∧ s' = s)
  ∨ (∃ ts, types_content (reg_delimiter (registry s)) types = Some ts
       ∧ l = length (sets s) ∧ s' = with_sets (sets s ++ [ts]) s).
Proof.
  destruct types; simpl; unfold splitNames, alloc_set; intros Hrun;
    rewrite ?bind_gets, ?ret_run in Hrun; simplify_eq; eauto.
Qed.

Lemma resolve_targets_Ok s tgs s' :
  resolve_targets s = Ok tgs s' →
  s' = s
  ∧ match getTargets (registry s) with
    | FixedTargets ts => tgs = ts
    | DynamicTargets _ => NoDup tgs
    end.
Proof.
  unfold resolve_targets. rewrite bind_gets.
  destruct (getTargets (registry s)) as [ts|f].
  - by intros [= <- <-].
  - rewrite bind_get_state. destruct (call_targets f s); intros [= <- <-];
      (split; [done|apply NoDup_new_set]).
Qed.

(** What a returning [emit()] did: the set-up ([s1]), the three loops
    ([s2], delivering [evs]), the removal of the [once] listeners. *)
Lemma emit_Ok types args s sti s' :
  emit types args s = Ok sti s' →
  ∃ s1 s2 evs,
    getEventTypes types (with_arrays (arrays s ++ [args]) s)
      = Ok (sti_eventTypes sti) s1
    ∧ resolve_targets s1 = Ok (sti_targets sti) s1
    ∧ sti_multiMatch sti = reg_multiMatch (registry s)
    ∧ sti_targetListeners sti = None
    ∧ registry s2 = registry s ∧ sets s2 = sets s1
    ∧ listeners s2 = listeners s
    ∧ events s2 = events s ++ evs
    ∧ sti_emitted sti = seq (length (events s)) (length evs)
    ∧ (∀ l, l ∈ sti_onceRemoved sti ↔
         ∃ ev, ev ∈ evs ∧ ev_eventListener ev = l ∧ once_set ev = true)
    ∧ (∃ cs, calls s2 = calls s ++ cs ∧ Forall (tables_seen s) cs
         ∧ handler_args cs = VEvent <$> sti_emitted sti)
    ∧ Forall (λ ev, composed_options s (ev_eventListener ev) (ev_type ev)
                    = Some (ev_options ev)) evs
    ∧ ev_key <$> evs `prefix_of`
        plan (reg_multiMatch (registry s)) (listenersFor (registry s))
          (listenersFor (registry s) !! reg_wildcard (registry s))
          (requested s1 sti) (sti_targets sti)
    ∧ (sti_stopEmitting sti = false →
       ev_key <$> evs =
         plan (reg_multiMatch (registry s)) (listenersFor (registry s))
           (listenersFor (registry s) !! reg_wildcard (registry s))
           (requested s1 sti) (sti_targets sti))
    ∧ remove_once (sti_onceRemoved sti) s2 = Ok tt s'.
Proof.
  unfold emit. intros Hrun.
  apply bind_Ok in Hrun as (a & s0 & [= <- <-] & Hrun).
  apply bind_Ok in Hrun as (ets & s1 & Hets & Hrun).
  rewrite bind_gets in Hrun.
  apply bind_Ok in Hrun as (tgs & s1' & Htgs & Hrun).
  pose proof (resolve_targets_Ok _ _ _ Htgs) as [-> _].
  apply bind_Ok in Hrun as ([stop sti1] & s2 & Hloop & Hrun).
  apply bind_Ok in Hrun as ([] & s3 & Hrm & [= <- <-]).
  assert (registry s1 = registry s ∧ listeners s1 = listeners s
          ∧ events s1 = events s ∧ calls s1 = calls s)
    as (R1 & L1 & E1 & C1).
  { apply getEventTypes_Ok in Hets as [[_ ->]|(ts & _ & _ & ->)]; done. }
  rewrite R1 in *.
  apply emit_targets_pass in Hloop as (evs & Hp & Hs & Hpre & Hfull); [|done].
  destruct Hp as [R2 S2 L2 E2 M2 MM2 ET2 T2 O2 (cs & C2 & F2 & H2) P2].
  simpl in *. rewrite R1 in *.
  unfold requested in *. simpl in *.
  exists s1, s2, evs. rewrite ET2, T2, MM2. simpl.
  split; [done|]. split; [done|]. split; [done|].
  split; [done|]. split; [done|]. split; [done|].
  split; [congruence|]. split; [congruence|].
  split; [by rewrite M2, E1|].
  split; [intros l; rewrite O2, elem_of_nil; naive_solver|].
  split.
  { exists cs. split_and!.
    + congruence.
    + eapply Forall_impl; [exact F2|]. intros c. by apply tables_seen_eq.
    + by rewrite H2, M2. }
  split.
  { eapply Forall_impl; [exact P2|]. intros ev. unfold composed_options.
    by rewrite R1, L1. }
  split; [done|]. split; [|done].
  intros Hns. apply Hfull. congruence.
Qed.
End emit_facts.

(** ** The claims *)

Section claims.
Context `{Callbacks}.

Lemma remove_once_frame ls s s' :
  remove_once ls s = Ok tt s' → only_tables_changed s s'.
Proof.
  revert s. induction ls as [|l ls IH]; intros s Hrun.
  { simpl in Hrun. rewrite ret_run in Hrun. simplify_eq.
    apply only_tables_changed_refl. }
  cbn [remove_once] in Hrun.
  apply bind_Ok in Hrun as ([] & s1 & H1 & Hrun).
  apply removeListeners_one in H1 as [? _].
  eapply only_tables_changed_trans; eauto.
Qed.

Lemma getEventTypes_frame types s l s' :
  getEventTypes types s = Ok l s' →
  registry s' = registry s ∧ listeners s' = listeners s
  ∧ events s' = events s ∧ calls s' = calls s ∧ arrays s' = arrays s
  ∧ ∀ i x, sets s !! i = Some x → sets s' !! i = Some x.
Proof.
  intros [[_ ->]|(ts & _ & _ & ->)]%getEventTypes_Ok; simpl;
    split_and!; try done.
  intros i x Hi. by apply lookup_app_l_Some.
Qed.

(** *** Nothing to deliver *)

Lemma emit_types_no_entry ets wilds tg args sti s :
  (∀ et, et ∈ ets → listenersFor (registry s) !! et = None) →
  emit_types ets wilds tg args sti s = Ok (false, sti) s.
Proof.
  induction ets as [|et ets IH]; intros Hno; simpl; [done|].
  rewrite bind_gets, Hno by apply list_elem_of_here.
  apply IH. intros et' ?. apply Hno. by apply list_elem_of_further.
Qed.

Lemma emit_targets_no_entry tgs wilds args sti s ets :
  sets s !! sti_eventTypes sti = Some ets →
  (∀ et, et ∈ ets → listenersFor (registry s) !! et = None) →
  ∃ sti', emit_targets tgs wilds args sti s = Ok (false, sti') s
    ∧ sti_emitted sti' = sti_emitted sti
    ∧ sti_onceRemoved sti' = sti_onceRemoved sti.
Proof.
  intros Hets Hno. revert sti Hets.
  induction tgs as [|tg tgs IH]; intros sti Hets; simpl; [by exists sti|].
  unfold read_set. rewrite bind_deref. simpl. rewrite Hets.
  rewrite bind_run, emit_types_no_entry by done.
  destruct (IH (sti_set_called (Some []) sti)) as (sti' & -> & ? & ?);
    [done|]. by exists sti'.
Qed.

(** If no requested type has an entry in [listenersFor], [emit()]
    returns, having called nobody and changed nothing in the registry,
    whatever is registered under the wildcard. *)
Lemma emit_no_entry types args s :
  types_valid s types →
  targets_available (registry s) →
  (∀ s1 l ets et,
     getEventTypes types (with_arrays (arrays s ++ [args]) s) = Ok l s1 →
     sets s1 !! l = Some ets → et ∈ ets →
     listenersFor (registry s) !! et = None) →
  ∃ sti s', emit types args s = Ok sti s'
    ∧ sti_emitted sti = [] ∧ sti_onceRemoved sti = []
    ∧ calls s' = calls s ∧ registry s' = registry s.
Proof.
  intros Hv Ht Hno. unfold emit.
  rewrite bind_run. unfold alloc_array at 1.
  set (s0 := with_arrays (arrays s ++ [args]) s) in *.
  assert (∃ l s1 ets, getEventTypes types s0 = Ok l s1
            ∧ sets s1 !! l = Some ets) as (l & s1 & ets & Hets & Hl).
  { destruct types; simpl in *; try done.
    - eexists _, _, _. unfold splitNames. rewrite bind_gets.
      split; [done|]. simpl. by rewrite lookup_app_r, Nat.sub_diag.
    - eexists _, _, _. split; [done|]. simpl.
      by rewrite lookup_app_r, Nat.sub_diag.
    - destruct Hv as [ets Hl]. by exists l, s0, ets.
    - eexists _, _, _. split; [done|]. simpl.
      by rewrite lookup_app_r, Nat.sub_diag. }
  rewrite bind_run, Hets, bind_gets.
  pose proof (getEventTypes_frame _ _ _ _ Hets) as (R1 & _ & _ & C1 & _ & _).
  assert (∃ tgs, resolve_targets s1 = Ok tgs s1) as [tgs Htgs].
  { unfold resolve_targets. rewrite bind_gets, R1.
    unfold targets_available in Ht. simpl.
    destruct (getTargets (registry s)) as [ts|f]; [by exists ts|].
    rewrite bind_get_state. specialize (Ht s1).
    destruct (call_targets f s1); [by eexists|by eexists|].
    by destruct (Ht v). }
  rewrite bind_run, Htgs.
  edestruct (emit_targets_no_entry tgs) as (sti' & Hloop & He & Ho);
    [| |rewrite bind_run, Hloop]; [exact Hl| |].
  { intros et Het. rewrite R1. by eapply Hno. }
  simpl in *. rewrite Ho. cbn [remove_once]. rewrite bind_ret, ret_run.
  eexists _, _. split; [done|]. simpl. by rewrite He, Ho, C1, R1.
Qed.
(** No [emit()] writes to [eventData]: the histories stay as
    [set()] left them. *)
Lemma emit_keeps_eventData types args s sti s' :
  emit types args s = Ok sti s' →
  eventData (registry s') = eventData (registry s).
Proof.
  intros (s1 & s2 & evs & _ & _ & _ & _ & R2 & _ & _ & _ & _ & _ & _ & _ & _
          & _ & Hrm)%emit_Ok.
  apply remove_once_frame in Hrm as (-> & _). simpl. by rewrite R2.
Qed.

(** [listen()] calls no handler: the only caller code it may run is
    the [setupListener] callback. *)
Lemma listen_calls_no_handler args s l s' :
  listen args s = Ok l s' →
  ∃ cs, calls s' = calls s ++ cs ∧ handler_args cs = [].
Proof.
  unfold listen. intros Hrun.
  apply bind_Ok in Hrun as (l0 & s1 & Hmk & Hrun).
  apply bind_Ok in Hrun as ([] & s2 & Hadd & [= <- <-]).
  assert (calls s2 = calls s1) as ->.
  { unfold add, get_listener, read_set, put_registry in Hadd.
    rewrite bind_deref in Hadd. simpl in Hadd.
    destruct (listeners s1 !! l0) as [lr|]; [|done].
    rewrite bind_deref in Hadd. simpl in Hadd.
    destruct (sets s1 !! lsnr_eventTypes lr); [|done].
    rewrite bind_gets in Hadd. unfold modify in Hadd. by simplify_eq. }
  assert (∃ spec, LumEventListener_constructor spec s = Ok l0 s1)
    as [spec Hc].
  { destruct args; simpl in Hmk; try done; eauto. }
  clear Hmk. unfold LumEventListener_constructor in Hc.
  apply bind_Ok in Hc as (h & s0 & Hh & Hc).
  assert (s0 = s) as ->.
  { unfold throw in Hh.
    repeat case_match; rewrite ?ret_run in Hh; by simplify_eq. }
  apply bind_Ok in Hc as (ets & s3 & Hets & Hc).
  apply getEventTypes_frame in Hets as (_ & _ & _ & C3 & _).
  apply bind_Ok in Hc as (this & s4 & [= <- <-] & Hc).
  rewrite bind_gets in Hc.
  apply bind_Ok in Hc as ([] & s5 & Hsetup & [= <- <-]).
  simpl in Hsetup.
  assert (calls s5 = calls s3
          ∨ ∃ c, call_kind_of c = SetupListenerCall
              ∧ calls s5 = calls s3 ++ [c]) as [->|(c & Hk & ->)].
  { repeat case_match; rewrite ?ret_run in Hsetup; simplify_eq;
      try (by left).
    all: right; unfold invoke_setup in Hsetup.
    all: repeat case_match; simplify_eq;
      (eexists; split; [|simpl; reflexivity]; reflexivity). }
  - exists []. by rewrite app_nil_r.
  - exists [c]. rewrite C3. split; [done|]. unfold handler_args.
    rewrite filter_cons_False; [done|]. by rewrite Hk.
Qed.

(** *** [remove()], [removeAll()], [add()] *)

Lemma set_add_idemp (l : nat) (ls : list nat) :
  set_add l (set_add l ls) = set_add l ls.
Proof.
  unfold set_add at 1.
  assert (set_has l (set_add l ls) = true) as ->; [|done].
  apply set_has_true, elem_of_set_add. by left.
Qed.

Lemma lookup_add_listenersFor l ets lf et :
  add_listenersFor l ets lf !! et =
  if bool_decide (et ∈ ets)
  then Some (set_add l (default [] (lf !! et)))
  else lf !! et.
Proof.
  unfold add_listenersFor. revert lf.
  induction ets as [|e ets IH]; intros lf; simpl; [done|].
  rewrite IH. clear IH.
  destruct (decide (et = e)) as [->|Hne].
  - rewrite (bool_decide_eq_true_2 (e ∈ e :: ets)) by apply list_elem_of_here.
    rewrite lookup_insert_eq. simpl.
    case_bool_decide; by rewrite ?set_add_idemp.
  - rewrite lookup_insert_ne by done.
    assert (bool_decide (et ∈ e :: ets) = bool_decide (et ∈ ets)) as ->;
      [|done].
    apply bool_decide_ext. rewrite elem_of_cons. naive_solver.
Qed.

(** C9.  [remove()] with the wildcard token empties [allListeners] and
    [listenersFor]; any [emit()] that follows, given event types it
    accepts, returns a status with an empty [emitted] list, having
    called nobody. *)
Theorem remove_wildcard_then_emit_nothing s :
  ∃ s1, remove (value_of_token (reg_wildcard (registry s))) s = Ok tt s1
    ∧ only_tables_changed s s1
    ∧ allListeners (registry s1) = []
    ∧ listenersFor (registry s1) = ∅
    ∧ ∀ types args,
        types_valid s1 types → targets_available (registry s1) →
        ∃ sti s2, emit types args s1 = Ok sti s2
          ∧ sti_emitted sti = [] ∧ calls s2 = calls s1.
Proof.
  eexists. unfold remove. rewrite bind_gets.
  rewrite bool_decide_eq_true_2 by done.
  unfold removeAll, put_registry. rewrite bind_gets.
  split; [done|]. simpl. split_and!; try done.
  intros types args Hv Ht.
  destruct (emit_no_entry types args _ Hv Ht) as (sti & s2 & ? & ? & _ & ? & _).
  { intros. apply lookup_empty. }
  by exists sti, s2.
Qed.

(** C10.  [removeAll()] changes the two listener tables and nothing
    else: the listeners, with their handlers and options, and their
    [eventTypes] sets are as before.  So [add(listener)] afterwards
    registers the listener again under each of its event types, and
    under no other. *)
Theorem removeAll_then_add_registers_again s l lr ts :
  listeners s !! l = Some lr →
  sets s !! lsnr_eventTypes lr = Some ts →
  ∃ s1 s2,
    removeAll s = Ok tt s1
    ∧ only_tables_changed s s1
    ∧ allListeners (registry s1) = [] ∧ listenersFor (registry s1) = ∅
    ∧ add (VListener l) s1 = Ok tt s2
    ∧ only_tables_changed s s2
    ∧ allListeners (registry s2) = [l]
    ∧ ∀ et, listenersFor (registry s2) !! et =
            if bool_decide (et ∈ ts) then Some [l] else None.
Proof.
  intros Hl Hts. eexists _, _.
  unfold removeAll, put_registry. rewrite bind_gets.
  split; [done|]. simpl. split; [done|]. split; [done|]. split; [done|].
  unfold add, get_listener, read_set, put_registry.
  rewrite bind_deref. simpl. rewrite Hl, bind_deref. simpl.
  rewrite Hts, bind_gets. split; [done|]. simpl.
  split; [done|]. split; [done|].
  intros et. rewrite lookup_add_listenersFor, lookup_empty. done.
Qed.

(** C8, as the code has it.  From a string, a symbol or an iterable
    that is not a [Set], [getEventTypes] makes a new [Set] object: the
    split names, the symbol alone, or the items; the sets that existed
    are not touched, and no later change to one of them changes the new
    one.  A [Set] is returned as it is: the same object, and nothing is
    allocated. *)
Theorem getEventTypes_new_set_unless_set types s l s' :
  getEventTypes types s = Ok l s' →
  match types with
  | TypesSet l0 => l = l0 ∧ s' = s
  | _ =>
      sets s !! l = None
      ∧ sets s' !! l = types_content (reg_delimiter (registry s)) types
      ∧ (∀ i x, sets s !! i = Some x → sets s' !! i = Some x)
      ∧ (∀ i x, i < length (sets s) →
           <[i:=x]> (sets s') !! l = sets s' !! l)
  end.
Proof.
  intros Hrun.
  destruct (getEventTypes_Ok _ _ _ _ Hrun) as [[-> ->]|(ts & Hc & -> & ->)];
    [done|].
  assert (sets s !! length (sets s) = None
    ∧ sets (with_sets (sets s ++ [ts]) s) !! length (sets s) = Some ts
    ∧ (∀ i x, sets s !! i = Some x →
         sets (with_sets (sets s ++ [ts]) s) !! i = Some x)
    ∧ (∀ i x, i < length (sets s) →
         <[i:=x]> (sets (with_sets (sets s ++ [ts]) s)) !! length (sets s)
         = sets (with_sets (sets s ++ [ts]) s) !! length (sets s))) as Hall.
  { simpl. split_and!.
    - by apply lookup_ge_None_2.
    - by rewrite lookup_app_r, Nat.sub_diag.
    - intros i x Hi. by apply lookup_app_l_Some.
    - intros i x Hi. apply list_lookup_insert_ne. lia. }
  destruct types; try done; by rewrite Hc.
Qed.
End claims.

(** ** The listener tables stay consistent

    [tables_consistent] holds when the registry is made and every
    operation of the registry keeps it. *)

Lemma tables_consistent_ext s s' :
  allListeners (registry s') = allListeners (registry s) →
  listenersFor (registry s') = listenersFor (registry s) →
  (∀ l lr, listeners s !! l = Some lr →
     ∃ lr', listeners s' !! l = Some lr'
       ∧ lsnr_eventTypes lr' = lsnr_eventTypes lr) →
  (∀ i x, sets s !! i = Some x → sets s' !! i = Some x) →
  tables_consistent s → tables_consistent s'.
Proof.
  intros Hal Hlf HL HS. rewrite !tables_consistent_spec.
  intros Hc et ls x. rewrite Hal, Hlf. intros Hls Hx.
  destruct (Hc et ls x Hls Hx) as (? & lr & ts & Hlr & Hts & ?).
  split; [done|]. destruct (HL x lr Hlr) as (lr' & ? & Het).
  exists lr', ts. rewrite Het. auto.
Qed.

Lemma initial_state_consistent targets opts :
  tables_consistent (initial_state targets opts).
Proof. apply map_Forall_empty. Qed.

Section invariant.
Context `{Callbacks}.

Lemma removeAll_consistent s s' :
  removeAll s = Ok tt s' → tables_consistent s'.
Proof.
  unfold removeAll, put_registry. rewrite bind_gets. intros [= <-].
  apply map_Forall_empty.
Qed.

Lemma set_consistent type opts s s' :
  tables_consistent s → set type opts s = Ok tt s' → tables_consistent s'.
Proof.
  unfold set, put_registry. rewrite bind_gets. intros Hc [= <-].
  by apply (tables_consistent_ext s); eauto.
Qed.

Lemma add_consistent l s s' :
  tables_consistent s → add l s = Ok tt s' → tables_consistent s'.
Proof.
  intros Hc Hrun. destruct l as [| | | | | | | | | |l| |]; try done.
  unfold add, get_listener, read_set, put_registry in Hrun.
  rewrite bind_deref in Hrun. simpl in Hrun.
  destruct (listeners s !! l) as [lr|] eqn:Hlr; [|done].
  rewrite bind_deref in Hrun. simpl in Hrun.
  destruct (sets s !! lsnr_eventTypes lr) as [ets|] eqn:Hets; [|done].
  rewrite bind_gets in Hrun. injection Hrun as <-.
  revert Hc. rewrite !tables_consistent_spec. simpl.
  intros Hc et ls x. rewrite lookup_add_listenersFor.
  setoid_rewrite elem_of_set_add.
  case_bool_decide as Het.
  - intros [= <-] [->|Hx]%elem_of_set_add.
    + split; [by left|]. by exists lr, ets.
    + destruct (listenersFor (registry s) !! et) as [ls|] eqn:Hls;
        [|by apply elem_of_nil in Hx].
      destruct (Hc et ls x Hls Hx) as [? ?]. split; [by right|done].
  - intros Hls Hx. destruct (Hc et ls x Hls Hx) as [? ?].
    split; [by right|done].
Qed.

Lemma removeListeners_cons l ls s :
  removeListeners (l :: ls) s =
  match removeListeners [l] s with
  | Ok _ s1 => removeListeners ls s1
  | Err e s1 => Err e s1
  end.
Proof.
  cbn [removeListeners]. rewrite !bind_gets, !bind_run.
  match goal with
  | |- match ?m with _ => _ end = _ => destruct m as [[] ?|]
  end; done.
Qed.

Lemma removeListeners_consistent ls s s' :
  tables_consistent s → removeListeners ls s = Ok tt s' →
  tables_consistent s'.
Proof.
  revert s. induction ls as [|l ls IH]; intros s Hc Hrun.
  { simpl in Hrun. rewrite ret_run in Hrun. by simplify_eq. }
  rewrite removeListeners_cons in Hrun.
  destruct (removeListeners [l] s) as [[] s1|] eqn:H1; [|done].
  apply removeListeners_one_absent in H1 as (_ & ? & _); [|done].
  by eapply IH.
Qed.
Lemma removeEvents_of_except et ls s s' :
  consistent_except et s → removeEvents_of et ls s = Ok tt s' →
  consistent_except et s'.
Proof.
  revert s. induction ls as [|lsnr ls IH]; intros s Hc Hrun.
  { simpl in Hrun. rewrite ret_run in Hrun. by simplify_eq. }
  cbn [removeEvents_of] in Hrun. unfold get_listener, read_set in Hrun.
  rewrite bind_deref in Hrun. simpl in Hrun.
  destruct (listeners s !! lsnr) as [lr|] eqn:Hlr; [|done].
  rewrite bind_deref in Hrun. simpl in Hrun.
  destruct (sets s !! lsnr_eventTypes lr) as [ets|] eqn:Hets; [|done].
  unfold write_set in Hrun. rewrite bind_modify in Hrun.
  set (s1 := with_sets _ s) in Hrun.
  assert (consistent_except et s1) as Hc1.
  { intros et' ls' l Hne Hls Hl.
    destruct (Hc et' ls' l Hne Hls Hl) as (? & lr' & ts & ? & Hts & ?).
    split; [done|]. simpl.
    destruct (decide (lsnr_eventTypes lr' = lsnr_eventTypes lr)) as [Heq|?].
    - exists lr', (set_delete et ets). split_and!; [done| |].
      + rewrite Heq. apply list_lookup_insert_eq. by eapply lookup_lt_Some.
      + rewrite Heq, Hets in Hts. simplify_eq.
        by apply elem_of_set_delete.
    - exists lr', ts. by rewrite list_lookup_insert_ne. }
  apply bind_Ok in Hrun as ([] & s2 & Hrm & Hrun).
  apply (IH s2); [|done]. clear Hrun IH.
  case_bool_decide as Hempty; [|rewrite ret_run in Hrm; by simplify_eq].
  apply removeListeners_one in Hrm as ((_ & HS & _ & HL & _) & Hal & Hout & Hin).
  assert (listenersFor (registry s2) = listenersFor (registry s1)) as Hlf.
  { destruct (decide (lsnr ∈ allListeners (registry s1))) as [Hl|Hl];
      [|by apply Hout].
    destruct (Hin Hl) as (lr' & ets' & Hlr' & Hets' & ->).
    simpl in Hlr', Hets'. rewrite Hlr in Hlr'. simplify_eq.
    rewrite list_lookup_insert_eq in Hets' by (by eapply lookup_lt_Some).
    simplify_eq. by rewrite Hempty. }
  intros et' ls' l Hne Hls Hl. rewrite Hlf in Hls.
  destruct (Hc1 et' ls' l Hne Hls Hl) as (? & lr' & ts & Hlr' & Hts & Het).
  split.
  - rewrite Hal. apply elem_of_set_delete. split; [|done]. intros ->.
    simpl in Hlr', Hts. rewrite Hlr in Hlr'. simplify_eq.
    rewrite list_lookup_insert_eq in Hts by (by eapply lookup_lt_Some).
    simplify_eq. rewrite Hempty in Het. by apply elem_of_nil in Het.
  - exists lr', ts. by rewrite HL, HS.
Qed.

Lemma removeEvents_consistent types s s' :
  tables_consistent s → removeEvents types s = Ok tt s' →
  tables_consistent s'.
Proof.
  revert s. induction types as [|et types IH]; intros s Hc Hrun.
  { simpl in Hrun. rewrite ret_run in Hrun. by simplify_eq. }
  cbn [removeEvents] in Hrun. rewrite bind_gets in Hrun.
  apply bind_Ok in Hrun as ([] & s1 & Hstep & Hrun).
  apply (IH s1); [|done]. clear Hrun IH.
  destruct (listenersFor (registry s) !! et) as [ls|];
    [|rewrite ret_run in Hstep; by simplify_eq].
  apply bind_Ok in Hstep as ([] & s2 & Hof & Hstep).
  apply removeEvents_of_except in Hof.
  2:{ intros et' ls' l _. rewrite tables_consistent_spec in Hc. apply Hc. }
  unfold put_registry in Hstep. rewrite bind_gets in Hstep.
  injection Hstep as <-.
  rewrite tables_consistent_spec. simpl. intros et' ls' l Hls Hl.
  destruct (decide (et' = et)) as [->|Hne].
  - rewrite lookup_insert_eq in Hls. simplify_eq. by apply elem_of_nil in Hl.
  - rewrite lookup_insert_ne in Hls by done. by apply (Hof et' ls' l).
Qed.

Lemma remove_consistent what s s' :
  tables_consistent s → remove what s = Ok tt s' → tables_consistent s'.
Proof.
  unfold remove. rewrite bind_gets. intros Hc Hrun.
  case_bool_decide; [by eapply removeAll_consistent|].
  destruct what; try done.
  - unfold splitNames in Hrun. rewrite bind_bind, bind_gets in Hrun.
    unfold alloc_set in Hrun. rewrite bind_run in Hrun.
    unfold read_set in Hrun. rewrite bind_deref in Hrun.
    case_match; [|done]. eapply removeEvents_consistent; [|done].
    apply (tables_consistent_ext s); simpl; eauto.
    intros i x Hi. by apply lookup_app_l_Some.
  - by eapply removeEvents_consistent.
  - by eapply removeListeners_consistent.
Qed.

Lemma LumEventListener_constructor_frame spec s l s' :
  LumEventListener_constructor spec s = Ok l s' →
  registry s' = registry s
  ∧ (∀ i x, sets s !! i = Some x → sets s' !! i = Some x)
  ∧ (∀ i x, listeners s !! i = Some x → listeners s' !! i = Some x).
Proof.
  unfold LumEventListener_constructor. intros Hc.
  apply bind_Ok in Hc as (h & s0 & Hh & Hc).
  assert (s0 = s) as ->.
  { unfold throw in Hh.
    repeat case_match; rewrite ?ret_run in Hh; by simplify_eq. }
  apply bind_Ok in Hc as (ets & s3 & Hets & Hc).
  apply getEventTypes_frame in Hets as (R3 & L3 & _ & _ & _ & S3).
  apply bind_Ok in Hc as (this & s4 & [= <- <-] & Hc).
  rewrite bind_gets in Hc.
  apply bind_Ok in Hc as ([] & s5 & Hsetup & [= <- <-]).
  simpl in Hsetup.
  match type of Hsetup with
  | context [with_listeners ?x ?y] => set (s4 := with_listeners x y) in *
  end.
  assert (registry s5 = registry s4 ∧ sets s5 = sets s4
          ∧ listeners s5 = listeners s4) as (-> & -> & ->).
  { unfold invoke_setup in Hsetup.
    repeat case_match; rewrite ?ret_run in Hsetup; by simplify_eq. }
  simpl. split_and!; [done|done|].
  intros i x Hi. apply lookup_app_l_Some. by rewrite L3.
Qed.

Lemma listen_consistent args s l s' :
  tables_consistent s → listen args s = Ok l s' → tables_consistent s'.
Proof.
  unfold listen. intros Hc Hrun.
  apply bind_Ok in Hrun as (l0 & s1 & Hmk & Hrun).
  apply bind_Ok in Hrun as ([] & s2 & Hadd & [= <- <-]).
  eapply add_consistent; [|done].
  assert (∃ spec, LumEventListener_constructor spec s = Ok l0 s1)
    as [spec Hcons].
  { destruct args; simpl in Hmk; try done; eauto. }
  apply LumEventListener_constructor_frame in Hcons as (R & S & L).
  apply (tables_consistent_ext s); try done; by rewrite ?R; eauto.
Qed.

Lemma once_consistent args s l s' :
  tables_consistent s → once args s = Ok l s' → tables_consistent s'.
Proof.
  unfold once. intros Hc Hrun.
  apply bind_Ok in Hrun as (l0 & s1 & Hl & Hrun).
  apply listen_consistent in Hl; [|done].
  unfold get_listener, write_listener in Hrun.
  rewrite bind_deref in Hrun. simpl in Hrun.
  destruct (listeners s1 !! l0) as [lr|] eqn:Hlr; [|done].
  rewrite bind_modify, ret_run in Hrun. injection Hrun as <- <-.
  apply (tables_consistent_ext s1); simpl; eauto.
  intros i x Hi. destruct (decide (i = l0)) as [->|Hne].
  - rewrite list_lookup_insert_eq by (by eapply lookup_lt_Some).
    eexists. split; [done|]. simpl. congruence.
  - rewrite list_lookup_insert_ne by done. eauto.
Qed.

Lemma emit_consistent types args s sti s' :
  tables_consistent s → emit types args s = Ok sti s' →
  tables_consistent s'.
Proof.
  intros Hc Hrun.
  apply emit_Ok in Hrun as (s1 & s2 & evs & Hets & _ & _ & _ & R2 & S2 & L2
    & _ & _ & _ & _ & _ & _ & _ & Hrm).
  apply getEventTypes_frame in Hets as (_ & _ & _ & _ & _ & S1).
  apply remove_once_absent in Hrm as (_ & ? & _); [done|].
  apply (tables_consistent_ext s); [by rewrite R2|by rewrite R2| | |done].
  - intros l lr Hl. rewrite L2. eauto.
  - intros i x Hi. rewrite S2. by apply S1.
Qed.
End invariant.

(** ** The claims on the scenarios *)

(** [remove("*")] on [wildcard_x_state], then [emit("x", "a")]. *)
Lemma remove_wildcard_then_emit_nothing_witness :
  ∃ s1,
    remove (VStr "*") wildcard_x_state = Ok tt s1
    ∧ allListeners (registry wildcard_x_state) = [0; 1]
    ∧ allListeners (registry s1) = []
    ∧ listenersFor (registry s1) = ∅
    ∧ ∃ sti s2, @emit demo_callbacks (TypesString "x") [VStr "a"] s1 = Ok sti s2
        ∧ sti_emitted sti = [].
Proof.
  destruct (@remove_wildcard_then_emit_nothing demo_callbacks wildcard_x_state)
    as (s1 & Hrm & Hotc & Hal & Hlf & Hemit).
  exists s1. split; [exact Hrm|]. split; [reflexivity|].
  split; [exact Hal|]. split; [exact Hlf|].
  destruct (Hemit (TypesString "x") [VStr "a"]) as (sti & s2 & Hrun & He & _).
  - exact I.
  - destruct Hotc as (-> & _). exact I.
  - by exists sti, s2.
Defined.

(** [removeAll()] on [wildcard_x_state], then [add] of its listener 1. *)
Lemma removeAll_then_add_registers_again_witness :
  let s := wildcard_x_state in
  (listeners s !! 1 =
     Some {| lsnr_handler := VFun 0; lsnr_eventTypes := 1;
             lsnr_options := ∅ |}
   ∧ sets s !! 1 = Some [TokStr "x"])
  ∧ ∃ s1 s2,
      removeAll s = Ok tt s1
      ∧ listeners s1 = listeners s ∧ sets s1 = sets s
      ∧ add (VListener 1) s1 = Ok tt s2
      ∧ allListeners (registry s2) = [1]
      ∧ listenersFor (registry s2) !! TokStr "x" = Some [1]
      ∧ listenersFor (registry s2) !! TokStr "*" = None.
Proof.
  intros s.
  assert (listeners s !! 1 =
            Some {| lsnr_handler := VFun 0; lsnr_eventTypes := 1;
                    lsnr_options := ∅ |}) as H1 by reflexivity.
  assert (sets s !! 1 = Some [TokStr "x"]) as H2 by reflexivity.
  split; [by split|].
  destruct (removeAll_then_add_registers_again s 1 _ _ H1 H2)
    as (s1 & s2 & Hrm & (_ & HS & _ & HL & _) & _ & _ & Hadd & _ & Hal & Hlf).
  exists s1, s2. split; [exact Hrm|]. split; [exact HL|]. split; [exact HS|].
  split; [exact Hadd|]. split; [exact Hal|].
  split; [exact (Hlf (TokStr "x"))|exact (Hlf (TokStr "*"))].
Defined.

(** C8, as claimed, fails: given a [Set], [getEventTypes] returns that
    very object, so when the caller then changes his [Set] the returned
    one has changed with it. *)
Lemma getEventTypes_returns_the_callers_set :
  ¬ returns_new_set (TypesSet 0) caller_set_state
  ∧ (l ← getEventTypes (TypesSet 0);
     write_set 0 [TokStr "a"; TokStr "z"];;
     read_set l) caller_set_state
    = Ok [TokStr "a"; TokStr "z"]
        (with_sets [[TokStr "a"; TokStr "z"]] caller_set_state).
Proof.
  split; [|reflexivity].
  intros Hnew. by specialize (Hnew 0 caller_set_state eq_refl).
Qed.

(** [getEventTypes(["a", "b", "a"])] while the caller holds a [Set]. *)
Lemma getEventTypes_new_set_unless_set_witness :
  let s := caller_set_state in
  let types := TypesIterable [TokStr "a"; TokStr "b"; TokStr "a"] in
  let s' := state_after (getEventTypes types) s in
  getEventTypes types s = Ok 1 s'
  ∧ sets s !! 1 = None
  ∧ sets s' !! 1 = Some [TokStr "a"; TokStr "b"]
  ∧ <[0:=[TokStr "z"]]> (sets s') !! 1 = Some [TokStr "a"; TokStr "b"].
Proof.
  intros s types s'.
  assert (getEventTypes types s = Ok 1 s') as H1
    by reflexivity.
  split; [exact H1|].
  destruct (getEventTypes_new_set_unless_set types s 1 s' H1)
    as (Hnew & Hl & _ & Hind).
  split; [exact Hnew|]. split; [exact Hl|].
  rewrite (Hind 0 [TokStr "z"]); [exact Hl|]. simpl. lia.
Defined.

(** C1 on the code: with a listener on the wildcard and no entry for
    ["x"] in [listenersFor], [emit("x")] returns having delivered nothing
    and called nobody. *)
Theorem emit_skips_wildcard_listener_of_unregistered_type :
  allListeners (registry wildcard_state) = [0]
  ∧ listenersFor (registry wildcard_state) !! TokStr "*" = Some [0]
  ∧ listenersFor (registry wildcard_state) !! TokStr "x" = None
  ∧ sti_emitted <$> value_of (emit_ "x" []) wildcard_state = Some []
  ∧ calls (state_after (emit_ "x" []) wildcard_state) = [].
Proof. split_and!; vm_compute; reflexivity. Qed.

(** C2 on the code: [multiMatch] is false, there are two targets and
    listener [0] is registered for ["a"] and for ["b"].  [emit("a b")]
    throws the [TypeError] of the undefined [typeDataFor] when it builds
    the first event: no event exists afterwards and the handler has not
    been called, for neither target. *)
Theorem emit_throws_before_the_two_type_listener :
  reg_multiMatch (registry two_types_state) = false
  ∧ typeDataFor (registry two_types_state) = None
  ∧ listenersFor (registry two_types_state) !! TokStr "a" = Some [0]
  ∧ listenersFor (registry two_types_state) !! TokStr "b" = Some [0]
  ∧ error_of (emit_ "a b" []) two_types_state = Some typeDataFor_undefined
  ∧ events (state_after (emit_ "a b" []) two_types_state) = []
  ∧ calls (state_after (emit_ "a b" []) two_types_state) = [].
Proof. split_and!; vm_compute; reflexivity. Qed.

(** C3 on the code: with [multiMatch], two targets and a [once] listener
    on ["a"] and ["b"], [emit("a b")] does not return: it throws the
    [TypeError] of the undefined [typeDataFor] at the first delivery.
    The listener has received nothing, and it is still in [allListeners]
    and in the sets of both types. *)
Theorem emit_throws_and_keeps_the_once_listener :
  lsnr_options <$> listeners once_state !! 0 = Some {["once" := VBool true]}
  ∧ typeDataFor (registry once_state) = None
  ∧ allListeners (registry once_state) = [0]
  ∧ error_of (emit_ "a b" []) once_state = Some typeDataFor_undefined
  ∧ events (state_after (emit_ "a b" []) once_state) = []
  ∧ calls (state_after (emit_ "a b" []) once_state) = []
  ∧ allListeners (registry (state_after (emit_ "a b" []) once_state)) = [0]
  ∧ listenersFor (registry (state_after (emit_ "a b" []) once_state))
      !! TokStr "a" = Some [0]
  ∧ listenersFor (registry (state_after (emit_ "a b" []) once_state))
      !! TokStr "b" = Some [0].
Proof. split_and!; vm_compute; reflexivity. Qed.

(** C4 on the code: type ["x"] keeps one state and has a listener.  Both
    emits of ["x"] throw the [TypeError] of the undefined [typeDataFor];
    after them no event exists and the history of ["x"] is still the
    empty array [set()] made. *)
Theorem emit_leaves_history_empty :
  typeDataFor (registry stateful_state) = None
  ∧ eventData (registry stateful_state) !! TokStr "x"
    = Some {| oneTime := false; keepState := 1; stateData := Some [] |}
  ∧ error_of (emit_ "x" [VStr "first"]) stateful_state
    = Some typeDataFor_undefined
  ∧ error_of (emit_ "x" [VStr "second"])
      (state_after (emit_ "x" [VStr "first"]) stateful_state)
    = Some typeDataFor_undefined
  ∧ events stateful_emitted_twice = []
  ∧ eventData (registry stateful_emitted_twice) !! TokStr "x"
    = Some {| oneTime := false; keepState := 1; stateData := Some [] |}.
Proof. split_and!; vm_compute; reflexivity. Qed.

(** C5 on the code: ["x"] is stateful with one event in its history;
    [listen("x", handler)] registers the listener and returns without
    having called anything. *)
Theorem listen_does_not_replay_history :
  stateData <$> (eventData (registry history_state) !! TokStr "x")
    = Some (Some [0])
  ∧ value_of (on_ "x" 0) history_state = Some 1
  ∧ allListeners (registry (state_after (on_ "x" 0) history_state)) = [0; 1]
  ∧ calls (state_after (on_ "x" 0) history_state) = calls history_state.
Proof. split_and!; vm_compute; reflexivity. Qed.



(** * More properties of the code *)

(** ** Names with white space *)

Lemma is_word_ws w :
  is_word w → w ≠ [] ∧ Forall (λ c, is_ws c = false) w.
Proof.
  intros [Hne Hw]. split; [done|]. eapply Forall_impl; [exact Hw|].
  by intros c [? _].
Qed.

Lemma drop_ws_pad pad cs :
  Forall (λ c, is_ws c = true) pad → drop_ws (pad ++ cs) = drop_ws cs.
Proof. induction 1 as [|c pad Hc _ IH]; simpl; [done|]. by rewrite Hc. Qed.

Lemma spaced_head w rest :
  is_word w → ∃ c tl, spaced w rest = c :: tl ∧ is_ws c = false.
Proof.
  intros [Hne Hw]%is_word_ws. destruct w as [|c w]; [done|].
  apply Forall_cons in Hw as [Hc _]. destruct rest as [|[]]; simpl; eauto.
Qed.

Lemma spaced_last w rest :
  is_word w → Forall (λ p, is_gap p.1 ∧ is_word p.2) rest →
  ∃ init c, spaced w rest = init ++ [c] ∧ is_ws c = false.
Proof.
  intros Hw Hrest. revert w Hw.
  induction Hrest as [|[g w'] rest [Hg Hw'] _ IH];
    intros w [Hne Hw]%is_word_ws; simpl in *.
  - rewrite app_nil_r. destruct (reverse w) as [|c r] eqn:E.
    { apply (f_equal reverse) in E. rewrite reverse_involutive in E. done. }
    exists (reverse r), c. split.
    + apply (f_equal reverse) in E. by rewrite reverse_involutive, reverse_cons in E.
    + rewrite Forall_forall in Hw. apply Hw.
      apply elem_of_reverse. rewrite E. left.
  - destruct (IH w' Hw') as (init & c & -> & Hc).
    exists (w ++ g ++ init), c. by rewrite <-!(assoc_L (++)).
Qed.

Lemma trim_padded pad1 pad2 w rest :
  Forall (λ c, is_ws c = true) pad1 → Forall (λ c, is_ws c = true) pad2 →
  is_word w → Forall (λ p, is_gap p.1 ∧ is_word p.2) rest →
  trim (pad1 ++ spaced w rest ++ pad2) = spaced w rest.
Proof.
  intros H1 H2 Hw Hrest. unfold trim. rewrite drop_ws_pad by done.
  destruct (spaced_head w rest Hw) as (c & tl & E & Hc).
  destruct (spaced_last w rest Hw Hrest) as (init & c' & E' & Hc').
  rewrite E. simpl. rewrite Hc.
  change (c :: tl ++ pad2) with ((c :: tl) ++ pad2). rewrite <-E, E'.
  rewrite !reverse_app. simpl.
  rewrite drop_ws_pad by by apply Forall_reverse.
  simpl. rewrite Hc'. by rewrite reverse_cons, reverse_involutive.
Qed.

Lemma split_ws_word cur sk w cs :
  is_word w → split_ws cur sk (w ++ cs) = split_ws (reverse w ++ cur) false cs.
Proof.
  intros [Hne Hw]%is_word_ws. revert cur sk.
  induction Hw as [|c w Hc Hw IH]; intros cur sk; [done|]. simpl. rewrite Hc.
  destruct w as [|c' w]; [done|].
  rewrite IH by done. by rewrite (reverse_cons (c' :: w) c), <-(assoc_L (++)).
Qed.

Lemma split_ws_pad cur g cs :
  Forall (λ c, is_ws c = true) g → split_ws cur true (g ++ cs) = split_ws cur true cs.
Proof. induction 1 as [|c g Hc _ IH]; simpl; [done|]. by rewrite Hc. Qed.

Lemma split_ws_gap cur g cs :
  is_gap g → split_ws cur false (g ++ cs) = reverse cur :: split_ws [] true cs.
Proof.
  intros [Hne Hg]. destruct Hg as [|c g Hc Hg]; [done|]. simpl. rewrite Hc.
  by rewrite split_ws_pad.
Qed.

Lemma split_ws_spaced sk w rest :
  is_word w → Forall (λ p, is_gap p.1 ∧ is_word p.2) rest →
  split_ws [] sk (spaced w rest) = w :: rest.*2.
Proof.
  intros Hw Hrest. revert sk w Hw.
  induction Hrest as [|[g w'] rest [Hg Hw'] _ IH]; intros sk w Hw; simpl in *.
  - rewrite app_nil_r. rewrite <-(app_nil_r w) at 1. rewrite split_ws_word by done.
    simpl. by rewrite app_nil_r, reverse_involutive.
  - rewrite split_ws_word by done. rewrite split_ws_gap by done.
    by rewrite app_nil_r, reverse_involutive, IH.
Qed.

(** X1.  [splitNames] reads a string of words as its words: white space
    around the words is dropped, every run of white space between two
    words is one separator, and a word that comes twice is in the set
    once, at its first place. *)
Theorem splitNames_collapses_white_space pad1 pad2 w rest s :
  reg_delimiter (registry s) = DelimWhitespace →
  Forall (λ c, is_ws c = true) pad1 → Forall (λ c, is_ws c = true) pad2 →
  is_word w → Forall (λ p, is_gap p.1 ∧ is_word p.2) rest →
  splitNames (string_of_list_ascii (pad1 ++ spaced w rest ++ pad2)) s =
  Ok (length (sets s))
    (with_sets
       (sets s ++ [new_set (TokStr ∘ string_of_list_ascii <$> w :: rest.*2)])
       s).
Proof.
  intros Hd H1 H2 Hw Hrest. unfold splitNames. rewrite bind_gets, Hd.
  unfold alloc_set, split_tokens, js_split.
  rewrite list_ascii_of_string_of_list_ascii, trim_padded by done.
  rewrite split_ws_spaced by done. by rewrite <-list_fmap_compose.
Qed.

(** X2.  A string of white space only, the empty string included, is read
    as the one name [""]. *)
Theorem splitNames_blank pad s :
  reg_delimiter (registry s) = DelimWhitespace →
  Forall (λ c, is_ws c = true) pad →
  splitNames (string_of_list_ascii pad) s =
  Ok (length (sets s)) (with_sets (sets s ++ [[TokStr ""]]) s).
Proof.
  intros Hd Hpad. unfold splitNames. rewrite bind_gets, Hd.
  unfold alloc_set, split_tokens, js_split.
  rewrite list_ascii_of_string_of_list_ascii.
  assert (trim pad = []) as ->; [|done].
  unfold trim. rewrite <-(app_nil_r pad), drop_ws_pad by done. done.
Qed.

(** ** Event type data: [set()] *)

Lemma set_run type opts s :
  set type opts s =
  Ok tt (with_registry
           (with_eventData
              (<[type := set_data opts
                           (default new_LumEventData
                              (eventData (registry s) !! type))]>
                 (eventData (registry s)))
              (registry s)) s).
Proof. done. Qed.

Lemma set_data_wf opts d :
  is_Some (stateData (set_data opts d)) ↔ stateful (set_data opts d) = true.
Proof.
  unfold set_data, stateful. simpl.
  destruct (0 <? _)%Z, (stateData d); simpl; split; try done;
    intros [? ?]; done.
Qed.

Lemma set_data_idemp opts d : set_data opts (set_data opts d) = set_data opts d.
Proof.
  unfold set_data. simpl.
  destruct (opt_oneTime opts), (opt_keepState opts) as [n|],
    (opt_stateful opts) as [[]|]; simpl;
    repeat match goal with
           | |- context [(0 <? ?k)%Z] => destruct (0 <? k)%Z eqn:?
           end; destruct (stateData d); simpl; done.
Qed.

Lemma set_data_history o d :
  (is_Some (stateData d) ↔ stateful d = true) →
  stateData (set_data o d) =
    if stateful (set_data o d)
    then (if stateful d then stateData d else Some [])
    else None.
Proof.
  unfold set_data, stateful. simpl. intros Hwf.
  destruct (0 <? keepState d)%Z eqn:E1, (stateData d) as [h|] eqn:E2.
  all: try (by destruct Hwf as [Hwf1 Hwf2]; destruct Hwf2).
  all: try (by destruct Hwf as [Hwf1 Hwf2]; discriminate Hwf1; eauto).
  all: repeat case_match; simplify_eq; try done; congruence.
Qed.

(** X3.  [set()] always returns and writes nothing but the data of the
    type it is given; in the data it leaves, the history array exists
    exactly when the type is stateful ([keepState > 0]), whatever the
    data was before. *)
Theorem set_history_exists_iff_stateful type opts s :
  ∃ d, set type opts s =
         Ok tt (with_registry
                  (with_eventData (<[type := d]> (eventData (registry s)))
                     (registry s)) s)
    ∧ (is_Some (stateData d) ↔ stateful d = true).
Proof. eexists. split; [apply set_run|apply set_data_wf]. Qed.

(** X4.  Calling [set()] a second time with the same type and options
    changes nothing. *)
Theorem set_twice_is_set_once type opts s :
  ∃ s1, set type opts s = Ok tt s1 ∧ set type opts s1 = Ok tt s1.
Proof.
  eexists. split; [apply set_run|]. rewrite set_run. simpl.
  rewrite lookup_insert_eq. simpl. rewrite set_data_idemp, insert_insert_eq.
  done.
Qed.

(** X5.  Across two calls of [set()] for one type the history array is
    kept while the type stays stateful, starts empty when the type
    becomes stateful, and is gone when the type is not stateful. *)
Theorem set_history_carried_while_stateful type o1 o2 s :
  ∃ s1 s2 d1 d2,
    set type o1 s = Ok tt s1 ∧ set type o2 s1 = Ok tt s2
    ∧ eventData (registry s1) !! type = Some d1
    ∧ eventData (registry s2) !! type = Some d2
    ∧ stateData d2 =
        if stateful d2
        then (if stateful d1 then stateData d1 else Some [])
        else None.
Proof.
  eexists _, _, _, _. split; [apply set_run|]. split; [apply set_run|].
  cbn [registry with_registry eventData with_eventData].
  rewrite !lookup_insert_eq. split; [done|]. split; [done|].
  cbn [default]. apply set_data_history, set_data_wf.
Qed.

(** ** Making and adding listeners *)

Section listen_facts.
Context `{Callbacks}.

Lemma invoke_setup_Ok f this arg s s' :
  invoke_setup f this arg s = Ok tt s' →
  s' = with_calls
         (calls s ++ [{| call_kind_of := SetupListenerCall; call_fn_id := f;
                         call_this := this; call_arg := arg;
                         call_allListeners := allListeners (registry s);
                         call_listenersFor := listenersFor (registry s) |}])
         s.
Proof.
  unfold invoke_setup. destruct (call_fn f this arg s); intros ?; by simplify_eq.
Qed.

(** What a returning constructor did: it chose the handler, built the
    set of types ([s1]), stored the listener and called the set-up
    callback. *)
Lemma LumEventListener_constructor_Ok spec s l s' :
  LumEventListener_constructor spec s = Ok l s' →
  ∃ ets s1,
    let h := if isListener (spec_listener spec) then spec_listener spec
             else spec_handler spec in
    let lr := {| lsnr_handler := h; lsnr_eventTypes := ets;
                 lsnr_options := makeOpts spec |} in
    isListener h = true
    ∧ getEventTypes
        (default TypesInvalid
           (match spec_eventTypes spec with
            | Some t => Some t
            | None => spec_eventNames spec
            end)) s = Ok ets s1
    ∧ l = length (listeners s)
    ∧ s' = with_calls
             (calls s1 ++
                setup_calls s (setupListener_of (registry s) (makeOpts spec)) l)
             (with_listeners (listeners s ++ [lr]) s1).
Proof.
  unfold LumEventListener_constructor. intros Hc.
  apply bind_Ok in Hc as (h & s0 & Hh & Hc).
  assert (s0 = s ∧ isListener h = true
          ∧ h = if isListener (spec_listener spec) then spec_listener spec
                else spec_handler spec) as (-> & Hv & Hh').
  { unfold throw in Hh.
    destruct (isListener (spec_listener spec)) eqn:E1;
      [|destruct (isListener (spec_handler spec)) eqn:E2];
      rewrite ?ret_run in Hh; by simplify_eq. }
  apply bind_Ok in Hc as (ets & s3 & Hets & Hc).
  pose proof (getEventTypes_frame _ _ _ _ Hets) as (R3 & L3 & _ & C3 & _ & _).
  apply bind_Ok in Hc as (this & s4 & [= <- <-] & Hc).
  rewrite bind_gets in Hc.
  apply bind_Ok in Hc as ([] & s5 & Hsetup & [= <- <-]).
  exists ets, s3. cbv zeta. rewrite <-Hh'. split; [done|]. split; [done|].
  split; [by rewrite L3|].
  cbn [registry with_listeners] in Hsetup. rewrite R3 in Hsetup.
  unfold setupListener_of, setup_calls.
  destruct (opt_get (makeOpts spec) "setupListener") eqn:E1;
    [destruct (opt_get (reg_options (registry s)) "setupListener") eqn:E2|
     destruct (opt_get (reg_options (registry s)) "setupListener") eqn:E2|..];
    rewrite ?ret_run in Hsetup; simplify_eq;
    try (apply invoke_setup_Ok in Hsetup as ->);
    destruct s3; simpl in *; subst; rewrite ?app_nil_r; done.
Qed.

Lemma makeListener_Ok args s l s' :
  makeListener args s = Ok l s' →
  ∃ spec, LumEventListener_constructor spec s = Ok l s'
    ∧ match args with
      | ListenSpec sp => spec = sp
      | ListenArgs ets h o =>
          spec = {| spec_listener := spec_listener (default empty_spec o);
                    spec_handler := h; spec_eventTypes := ets;
                    spec_eventNames := spec_eventNames (default empty_spec o);
                    spec_props := spec_props (default empty_spec o);
                    spec_options := spec_options (default empty_spec o) |}
      | ListenBadArity => False
      end.
Proof. destruct args; simpl; intros Hrun; try done; eauto. Qed.

Lemma lookup_makeOpts spec k :
  makeOpts spec !! k =
  if bool_decide (k ∈ REMOVE_OPTS) then None
  else match spec_options spec !! k with
       | Some v => Some v
       | None => spec_props spec !! k
       end.
Proof.
  unfold makeOpts, REMOVE_OPTS, assign. simpl.
  rewrite !lookup_delete, lookup_union.
  case_bool_decide as Hk.
  - repeat (apply elem_of_cons in Hk as [->|Hk]; [by repeat case_decide|]).
    by apply elem_of_nil in Hk.
  - repeat (destruct (decide (_ = k)) as [<-|_];
              [destruct Hk; by repeat constructor|]).
    by destruct (spec_options spec !! k), (spec_props spec !! k).
Qed.

(** What a returning [listen()] did. *)
Lemma listen_Ok args s l s' :
  listen args s = Ok l s' →
  ∃ spec ets s1 ts,
    makeListener args s =
      Ok l (with_calls
              (calls s1 ++
                 setup_calls s
                   (setupListener_of (registry s) (makeOpts spec)) l)
              (with_listeners
                 (listeners s ++
                    [{| lsnr_handler :=
                          if isListener (spec_listener spec)
                          then spec_listener spec else spec_handler spec;
                        lsnr_eventTypes := ets;
                        lsnr_options := makeOpts spec |}]) s1))
    ∧ registry s1 = registry s ∧ listeners s1 = listeners s
    ∧ calls s1 = calls s ∧ events s1 = events s ∧ arrays s1 = arrays s
    ∧ (∀ i x, sets s !! i = Some x → sets s1 !! i = Some x)
    ∧ sets s1 !! ets = Some ts
    ∧ l = length (listeners s)
    ∧ s' = with_registry
             (with_tables (set_add l (allListeners (registry s)))
                (add_listenersFor l ts (listenersFor (registry s)))
                (registry s))
             (with_calls
                (calls s1 ++
                   setup_calls s
                     (setupListener_of (registry s) (makeOpts spec)) l)
                (with_listeners
                   (listeners s ++
                      [{| lsnr_handler :=
                            if isListener (spec_listener spec)
                            then spec_listener spec else spec_handler spec;
                          lsnr_eventTypes := ets;
                          lsnr_options := makeOpts spec |}]) s1)).
Proof.
  unfold listen. intros Hrun.
  apply bind_Ok in Hrun as (l0 & s2 & Hmk & Hrun).
  apply bind_Ok in Hrun as ([] & s3 & Hadd & [= <- <-]).
  pose proof (makeListener_Ok _ _ _ _ Hmk) as (spec & Hc & _).
  apply LumEventListener_constructor_Ok in Hc
    as (ets & s1 & Hv & Hets & -> & ->).
  pose proof (getEventTypes_frame _ _ _ _ Hets) as (R1 & L1 & E1 & C1 & A1 & S1).
  unfold add, get_listener, read_set, put_registry in Hadd.
  rewrite bind_deref in Hadd. cbn [listeners with_calls with_listeners] in Hadd.
  rewrite lookup_app_r, Nat.sub_diag in Hadd by done. cbn [lookup list_lookup] in Hadd.
  rewrite bind_deref in Hadd.
  cbn [sets with_calls with_listeners lsnr_eventTypes] in Hadd.
  destruct (sets s1 !! ets) as [ts|] eqn:Hts; [|done].
  rewrite bind_gets in Hadd. unfold modify in Hadd.
  cbn [registry with_calls with_listeners] in Hadd. rewrite R1 in Hadd.
  injection Hadd as <-.
  exists spec, ets, s1, ts. by split_and!.
Qed.

(** X6.  The listener [listen()] returns is a new one, stored after the
    existing listeners, which stay as they are; it is appended to
    [allListeners] and to the set of each of its event types, and
    nothing else in the tables changes. *)
Theorem listen_registers_under_each_type args s l s' :
  listen args s = Ok l s' →
  listeners s !! l = None
  ∧ (∀ i x, listeners s !! i = Some x → listeners s' !! i = Some x)
  ∧ ∃ lr ts,
      listeners s' !! l = Some lr
      ∧ sets s' !! lsnr_eventTypes lr = Some ts
      ∧ registry s' =
          with_tables (allListeners (registry s'))
            (listenersFor (registry s')) (registry s)
      ∧ allListeners (registry s') = set_add l (allListeners (registry s))
      ∧ ∀ et, listenersFor (registry s') !! et =
              if bool_decide (et ∈ ts)
              then Some (set_add l
                           (default [] (listenersFor (registry s) !! et)))
              else listenersFor (registry s) !! et.
Proof.
  intros (spec & ets & s1 & ts & _ & R1 & L1 & C1 & E1 & A1 & S1 & Hts
          & -> & ->)%listen_Ok.
  split; [by apply lookup_ge_None_2|].
  split; [intros i x Hi; by apply lookup_app_l_Some|].
  eexists _, ts. split; [simpl; by rewrite lookup_app_r, Nat.sub_diag|].
  simpl. split_and!; [done|done|done|].
  intros et. apply lookup_add_listenersFor.
Qed.

(** X7.  In [listen(eventTypes, handler, spec)] a valid [spec.listener]
    is the handler of the new listener, and the [handler] argument is
    used only without one.  The options of the listener are the
    properties of [spec] overlaid with those of [spec.options], without
    the four reserved names.  (The option named [options] is left
    aside: the nested object itself is no value of the model.) *)
Theorem makeListener_handler_and_options ets h ospec s l s' :
  makeListener (ListenArgs ets h ospec) s = Ok l s' →
  ∃ lr, listeners s' !! l = Some lr
    ∧ isListener (lsnr_handler lr) = true
    ∧ lsnr_handler lr =
        (if isListener (spec_listener (default empty_spec ospec))
         then spec_listener (default empty_spec ospec) else h)
    ∧ ∀ k, k ≠ "options" →
        lsnr_options lr !! k =
          if bool_decide (k ∈ REMOVE_OPTS) then None
          else match spec_options (default empty_spec ospec) !! k with
               | Some v => Some v
               | None => spec_props (default empty_spec ospec) !! k
               end.
Proof.
  intros (spec & Hc & ->)%makeListener_Ok.
  apply LumEventListener_constructor_Ok in Hc
    as (ets' & s1 & Hv & Hets & -> & ->).
  apply getEventTypes_frame in Hets as (_ & L1 & _).
  eexists. split; [simpl; by rewrite lookup_app_r, Nat.sub_diag|].
  simpl in *. split_and!; [done|done|].
  intros k _. by rewrite lookup_makeOpts.
Qed.

(** X8.  The only caller code [listen()] runs is the set-up callback,
    the listener's own [setupListener] option or else the registry's:
    if that is a function it is called once, on the registry and with
    the new listener, before the listener is in the tables; otherwise
    nothing is called. *)
Theorem listen_calls_setupListener_first args s l s' :
  listen args s = Ok l s' →
  ∃ lr, listeners s' !! l = Some lr
    ∧ calls s' =
        calls s ++
          setup_calls s (setupListener_of (registry s) (lsnr_options lr)) l.
Proof.
  intros (spec & ets & s1 & ts & _ & R1 & L1 & C1 & E1 & A1 & S1 & Hts
          & -> & ->)%listen_Ok.
  eexists. split; [simpl; by rewrite lookup_app_r, Nat.sub_diag|].
  simpl. by rewrite C1.
Qed.

Lemma getEventTypes_Err types s e s' :
  getEventTypes types s = Err e s' →
  types = TypesInvalid ∧ e = TypeError "Invalid event names" ∧ s' = s.
Proof.
  destruct types; simpl; unfold splitNames, alloc_set, throw; intros Hrun;
    rewrite ?bind_gets, ?ret_run in Hrun; by simplify_eq.
Qed.

Lemma bind_Err {A B} (m : M A) (f : A → M B) s e s' :
  (m ≫= f) s = Err e s' ↔
  m s = Err e s' ∨ ∃ a s1, m s = Ok a s1 ∧ f a s1 = Err e s'.
Proof. unfold mbind, M_bind. destruct (m s); naive_solver. Qed.

Lemma LumEventListener_constructor_Err spec s e s' :
  LumEventListener_constructor spec s = Err e s' →
  registry s' = registry s
  ∧ (e = TypeError "Invalid listener/handler in spec"
     ∨ e = TypeError "Invalid event names"
     ∨ ∃ v, e = Thrown v).
Proof.
  unfold LumEventListener_constructor. intros Hc.
  apply bind_Err in Hc as [Hh|(h & s0 & Hh & Hc)].
  { unfold throw in Hh. repeat case_match; rewrite ?ret_run in Hh;
      simplify_eq. eauto. }
  assert (s0 = s) as ->.
  { unfold throw in Hh.
    repeat case_match; rewrite ?ret_run in Hh; by simplify_eq. }
  apply bind_Err in Hc as [Hets|(ets & s3 & Hets & Hc)].
  { apply getEventTypes_Err in Hets as (_ & -> & ->). eauto. }
  apply getEventTypes_frame in Hets as (R3 & _).
  apply bind_Err in Hc as [Hl|(this & s4 & [= <- <-] & Hc)]; [done|].
  rewrite bind_gets in Hc.
  apply bind_Err in Hc as [Hsetup|([] & s5 & _ & Hc)]; [|done].
  assert (registry s' = registry s3 ∧ ∃ v, e = Thrown v) as [-> ?];
    [|by eauto].
  unfold invoke_setup in Hsetup.
  repeat case_match; rewrite ?ret_run in Hsetup; simplify_eq; eauto.
Qed.

(** X9.  A [listen()] that throws has registered nothing: the registry
    is as it was.  What it throws is the [RangeError] for a wrong
    number of arguments, the [TypeError] for a handler that is no
    listener or for invalid event types, or what the set-up callback
    threw. *)
Theorem listen_failure_registers_nothing args s e s' :
  listen args s = Err e s' →
  registry s' = registry s
  ∧ (e = RangeError "Invalid number of arguments"
     ∨ e = TypeError "Invalid listener/handler in spec"
     ∨ e = TypeError "Invalid event names"
     ∨ (∃ v, e = Thrown v)
     ∨ e = Dangling).
Proof.
  unfold listen. intros Hrun.
  apply bind_Err in Hrun as [Hmk|(l & s1 & Hmk & Hrun)].
  - destruct args; simpl in Hmk.
    + apply LumEventListener_constructor_Err in Hmk. naive_solver.
    + apply LumEventListener_constructor_Err in Hmk. naive_solver.
    + unfold throw in Hmk. simplify_eq. eauto.
  - apply makeListener_Ok in Hmk as (spec & Hc & _).
    apply LumEventListener_constructor_frame in Hc as (R1 & _).
    apply bind_Err in Hrun as [Hadd|([] & s2 & _ & ?)]; [|done].
    unfold add, get_listener, read_set, put_registry in Hadd.
    rewrite bind_deref in Hadd.
    destruct (listeners s1 !! l) as [lr|]; [|simplify_eq; eauto 10].
    rewrite bind_deref in Hadd.
    destruct (sets s1 !! lsnr_eventTypes lr); [|simplify_eq; eauto 10].
    by rewrite bind_gets in Hadd.
Qed.

Lemma add_listenersFor_idemp l ets lf :
  add_listenersFor l ets (add_listenersFor l ets lf) =
  add_listenersFor l ets lf.
Proof.
  apply map_eq. intros et. rewrite !lookup_add_listenersFor.
  case_bool_decide; [|done]. simpl. by rewrite set_add_idemp.
Qed.
End listen_facts.

(** X10.  Adding a listener that has just been added changes nothing:
    the second [add()] returns and leaves the state as it is. *)
Theorem add_twice_is_add_once l s s1 :
  add l s = Ok tt s1 → add l s1 = Ok tt s1.
Proof.
  destruct l as [| | | | | | | | | |l| |]; try done.
  unfold add, get_listener, read_set, put_registry. intros Hrun.
  rewrite bind_deref in Hrun.
  destruct (listeners s !! l) as [lr|] eqn:Hlr; [|done].
  rewrite bind_deref in Hrun.
  destruct (sets s !! lsnr_eventTypes lr) as [ets|] eqn:Hets; [|done].
  rewrite bind_gets in Hrun. injection Hrun as <-.
  rewrite bind_deref. cbn [listeners with_registry]. rewrite Hlr.
  rewrite bind_deref. cbn [sets with_registry]. rewrite Hets.
  rewrite bind_gets. unfold modify. cbn [registry with_registry].
  cbn [allListeners listenersFor with_tables].
  by rewrite set_add_idemp, add_listenersFor_idemp.
Qed.

(** ** Removing listeners and event types *)

Lemma set_delete_twice {A} `{EqDecision A} (x : A) (s : list A) :
  set_delete x (set_delete x s) = set_delete x s.
Proof. apply set_delete_absent. rewrite elem_of_set_delete. naive_solver. Qed.

Lemma with_tables_same reg :
  with_tables (allListeners reg) (listenersFor reg) reg = reg.
Proof. by destruct reg. Qed.

Lemma removeListeners_absent ls s :
  (∀ l, l ∈ ls → l ∉ allListeners (registry s)) →
  removeListeners ls s = Ok tt s.
Proof.
  induction ls as [|l ls IH]; intros Hls; [done|].
  cbn [removeListeners]. rewrite bind_gets.
  assert (set_has l (allListeners (registry s)) = false) as ->.
  { apply set_has_false, Hls. left. }
  rewrite bind_ret. apply IH. intros x Hx. apply Hls. by right.
Qed.

Lemma removeListeners_removed ls s s' :
  removeListeners ls s = Ok tt s' →
  (∀ x, x ∈ allListeners (registry s') ↔
        x ∈ allListeners (registry s) ∧ x ∉ ls).
Proof.
  revert s. induction ls as [|l ls IH]; intros s Hrun x.
  { simpl in Hrun. rewrite ret_run in Hrun. simplify_eq.
    rewrite elem_of_nil. naive_solver. }
  rewrite removeListeners_cons in Hrun.
  destruct (removeListeners [l] s) as [[] s1|] eqn:H1; [|done].
  apply removeListeners_one in H1 as (_ & Hal & _).
  rewrite (IH _ Hrun), Hal, elem_of_set_delete, not_elem_of_cons. naive_solver.
Qed.

(** X11.  After [removeListeners()] none of the listeners it was given is
    in [allListeners], the other members are still there, and removing
    the same listeners again changes nothing. *)
Theorem removeListeners_again_changes_nothing ls s s1 :
  removeListeners ls s = Ok tt s1 →
  (∀ x, x ∈ allListeners (registry s1) ↔
        x ∈ allListeners (registry s) ∧ x ∉ ls)
  ∧ removeListeners ls s1 = Ok tt s1.
Proof.
  intros Hrun. pose proof (removeListeners_removed _ _ _ Hrun) as Hal.
  split; [done|]. apply removeListeners_absent. intros l Hl. rewrite Hal.
  naive_solver.
Qed.

(** The inner loop of [removeEvents()]: every listener of the list loses
    [et]; the ones left without a type leave [allListeners]; the sets of
    [listenersFor] are not touched. *)
Lemma removeEvents_of_effect et ls s s' :
  removeEvents_of et ls s = Ok tt s' →
  listeners s' = listeners s ∧ arrays s' = arrays s ∧ events s' = events s
  ∧ calls s' = calls s
  ∧ registry s' =
      with_tables (allListeners (registry s')) (listenersFor (registry s))
        (registry s)
  ∧ (∀ i ts, sets s !! i = Some ts →
       sets s' !! i = Some ts ∨ sets s' !! i = Some (set_delete et ts))
  ∧ (∀ i, sets s !! i = None → sets s' !! i = None)
  ∧ (∀ l, l ∈ ls →
       ∃ lr ts, listeners s !! l = Some lr
         ∧ sets s !! lsnr_eventTypes lr = Some ts
         ∧ sets s' !! lsnr_eventTypes lr = Some (set_delete et ts))
  ∧ (∀ x, x ∈ allListeners (registry s') ↔
          x ∈ allListeners (registry s) ∧ ¬ (x ∈ ls ∧ only_type s et x)).
Proof.
  revert s. induction ls as [|l0 ls IH]; intros s Hrun.
  { simpl in Hrun. rewrite ret_run in Hrun. simplify_eq.
    split_and!; try done.
    - by rewrite with_tables_same.
    - auto.
    - by intros l ?%elem_of_nil.
    - intros x. rewrite elem_of_nil. naive_solver. }
  cbn [removeEvents_of] in Hrun. unfold get_listener, read_set in Hrun.
  rewrite bind_deref in Hrun. simpl in Hrun.
  destruct (listeners s !! l0) as [lr0|] eqn:Hlr0; [|done].
  rewrite bind_deref in Hrun. simpl in Hrun.
  destruct (sets s !! lsnr_eventTypes lr0) as [ets0|] eqn:Hets0; [|done].
  unfold write_set in Hrun. rewrite bind_modify in Hrun.
  set (i0 := lsnr_eventTypes lr0) in *.
  set (s1 := with_sets _ s) in Hrun.
  apply bind_Ok in Hrun as ([] & s2 & Hrm & Hrun).
  apply IH in Hrun as (L & A & E & C & R & S & SN & P & AL). clear IH.
  assert (sets s2 = <[i0 := set_delete et ets0]> (sets s)
          ∧ listeners s2 = listeners s ∧ arrays s2 = arrays s
          ∧ events s2 = events s ∧ calls s2 = calls s
          ∧ registry s2 =
              with_tables (allListeners (registry s2))
                (listenersFor (registry s)) (registry s)
          ∧ ∀ x, x ∈ allListeners (registry s2) ↔
                 x ∈ allListeners (registry s)
                 ∧ ¬ (x = l0 ∧ set_delete et ets0 = []))
    as (S2 & L2 & A2 & E2 & C2 & R2 & AL2).
  { case_bool_decide as Hempty.
    - apply removeListeners_one in Hrm
        as ((R' & HS & HA & HL & HE & HC) & Hal & Hout & Hin).
      assert (listenersFor (registry s2) = listenersFor (registry s)) as Hlf.
      { destruct (decide (l0 ∈ allListeners (registry s1))) as [Hl|Hl];
          [|by apply Hout].
        destruct (Hin Hl) as (lr' & ets' & Hlr' & Hets' & ->).
        simpl in Hlr', Hets'. rewrite Hlr0 in Hlr'. simplify_eq.
        fold i0 in Hets'.
        rewrite list_lookup_insert_eq in Hets' by (by eapply lookup_lt_Some).
        simplify_eq. by rewrite Hempty. }
      split_and!; try done.
      + rewrite R'. simpl. by rewrite Hlf.
      + intros x. rewrite Hal, elem_of_set_delete. simpl. naive_solver.
    - rewrite ret_run in Hrm. injection Hrm as <-. simpl.
      split_and!; try done; [by rewrite with_tables_same|naive_solver]. }
  assert (∀ i ts, sets s !! i = Some ts →
            ∃ ts2, sets s2 !! i = Some ts2
              ∧ set_delete et ts2 = set_delete et ts
              ∧ (ts2 = ts ∨ ts2 = set_delete et ts)) as S12.
  { intros i ts Hi. rewrite S2. destruct (decide (i = i0)) as [->|Hne].
    - rewrite list_lookup_insert_eq by (by eapply lookup_lt_Some).
      rewrite Hets0 in Hi. simplify_eq. eexists. split; [done|].
      split; [apply set_delete_twice|by right].
    - rewrite list_lookup_insert_ne by done. eauto. }
  assert (∀ i ts, sets s !! i = Some ts →
            sets s' !! i = Some ts ∨ sets s' !! i = Some (set_delete et ts))
    as S'.
  { intros i ts Hi. destruct (S12 i ts Hi) as (ts2 & Hi2 & Hd & [->| ->]).
    - by apply S.
    - destruct (S _ _ Hi2) as [->| ->]; [by right|].
      right. by rewrite set_delete_twice. }
  assert (∀ x, only_type s2 et x ↔ only_type s et x) as OT.
  { intros x. unfold only_type. rewrite L2. split.
    - intros (lr & ts2 & Hlr & Hts2 & Hd).
      destruct (sets s !! lsnr_eventTypes lr) as [ts|] eqn:Hts.
      + destruct (S12 _ _ Hts) as (ts2' & Hi2 & Hd' & _).
        exists lr, ts. split_and!; [done|done|]. congruence.
      + rewrite S2 in Hts2. apply lookup_lt_Some in Hts2.
        rewrite length_insert in Hts2. apply lookup_ge_None in Hts. lia.
    - intros (lr & ts & Hlr & Hts & Hd).
      destruct (S12 _ _ Hts) as (ts2 & Hi2 & Hd' & _).
      exists lr, ts2. split_and!; [done|done|]. congruence. }
  split_and!; try congruence.
  - rewrite R, R2. simpl. done.
  - done.
  - intros i Hi. apply SN. rewrite S2. apply lookup_ge_None.
    rewrite length_insert. by apply lookup_ge_None.
  - intros l [->|Hl]%elem_of_cons.
    + exists lr0, ets0. split_and!; [done|done|].
      destruct (S12 _ _ Hets0) as (ts2 & Hi2 & Hd & _).
      rewrite S2, list_lookup_insert_eq in Hi2 by (by eapply lookup_lt_Some).
      simplify_eq. fold i0.
      destruct (S i0 (set_delete et ets0)) as [->| ->]; try done.
      * rewrite S2. apply list_lookup_insert_eq. by eapply lookup_lt_Some.
      * by rewrite set_delete_twice.
    + destruct (P l Hl) as (lr & ts2 & Hlr & Hts2 & Hfin).
      rewrite L2 in Hlr.
      destruct (sets s !! lsnr_eventTypes lr) as [ts|] eqn:Hts.
      * destruct (S12 _ _ Hts) as (ts2' & Hi2 & Hd & _).
        exists lr, ts. split_and!; [done|done|]. rewrite Hfin. congruence.
      * rewrite S2 in Hts2. apply lookup_lt_Some in Hts2.
        rewrite length_insert in Hts2. apply lookup_ge_None in Hts. lia.
  - intros x. rewrite AL, AL2, OT, elem_of_cons.
    assert (only_type s et l0 ↔ set_delete et ets0 = []) as Hl0.
    { unfold only_type. split; [|by eauto].
      intros (lr & ts & Hlr & Hts & Hd). rewrite Hlr0 in Hlr.
      injection Hlr as <-. fold i0 in Hts. rewrite Hets0 in Hts.
      by injection Hts as <-. }
    split.
    + intros [[Hx Hn1] Hn2]. split; [done|].
      intros [[->|Hxl] Hot]; [|by apply Hn2].
      apply Hn1. split; [done|]. by apply Hl0.
    + intros [Hx Hn]. split; [split; [done|]|].
      * intros [-> Hd]. apply Hn. split; [by left|]. by apply Hl0.
      * intros [Hxl Hot]. apply Hn. split; [by right|done].
Qed.

Lemma removeEvents_cons et types s :
  removeEvents (et :: types) s =
  match removeEvents [et] s with
  | Ok _ s1 => removeEvents types s1
  | Err e s1 => Err e s1
  end.
Proof.
  cbn [removeEvents]. rewrite !bind_gets, !bind_run.
  match goal with
  | |- match ?m with _ => _ end = _ => destruct m as [[] ?|]
  end; done.
Qed.

(** One round of [removeEvents()]: the inner loop, then
    [eventListeners.clear()]. *)
Lemma removeEvents_one et s s' :
  removeEvents [et] s = Ok tt s' →
  match listenersFor (registry s) !! et with
  | None => s' = s
  | Some ls =>
      ∃ s2, removeEvents_of et ls s = Ok tt s2
        ∧ s' = with_registry
                 (with_tables (allListeners (registry s2))
                    (<[et := []]> (listenersFor (registry s))) (registry s))
                 s2
  end.
Proof.
  cbn [removeEvents]. rewrite bind_gets. intros Hrun.
  apply bind_Ok in Hrun as ([] & s1 & Hstep & [= <-]).
  destruct (listenersFor (registry s) !! et) as [ls|];
    [|rewrite ret_run in Hstep; by simplify_eq].
  apply bind_Ok in Hstep as ([] & s2 & Hof & Hstep).
  unfold put_registry in Hstep. rewrite bind_gets in Hstep.
  injection Hstep as <-. exists s2. split; [done|].
  apply removeEvents_of_effect in Hof as (_ & _ & _ & _ & R & _).
  rewrite R. done.
Qed.

Lemma removeEvents_tables types s s' :
  removeEvents types s = Ok tt s' →
  registry s' =
    with_tables (allListeners (registry s')) (listenersFor (registry s'))
      (registry s)
  ∧ listeners s' = listeners s ∧ arrays s' = arrays s
  ∧ events s' = events s ∧ calls s' = calls s
  ∧ (∀ et, listenersFor (registry s') !! et =
           if bool_decide (et ∈ types)
           then (λ _, []) <$> listenersFor (registry s) !! et
           else listenersFor (registry s) !! et)
  ∧ (∀ x, x ∈ allListeners (registry s') → x ∈ allListeners (registry s)).
Proof.
  revert s. induction types as [|et types IH]; intros s Hrun.
  { simpl in Hrun. rewrite ret_run in Hrun. simplify_eq.
    by rewrite with_tables_same. }
  rewrite removeEvents_cons in Hrun.
  destruct (removeEvents [et] s) as [[] s1|] eqn:H1; [|done].
  apply removeEvents_one in H1.
  apply IH in Hrun as (R & L & A & E & C & LF & AL). clear IH.
  assert (registry s1 =
            with_tables (allListeners (registry s1))
              (listenersFor (registry s1)) (registry s)
          ∧ listeners s1 = listeners s ∧ arrays s1 = arrays s
          ∧ events s1 = events s ∧ calls s1 = calls s
          ∧ (∀ e, listenersFor (registry s1) !! e =
                  if decide (e = et)
                  then (λ _, []) <$> listenersFor (registry s) !! e
                  else listenersFor (registry s) !! e)
          ∧ (∀ x, x ∈ allListeners (registry s1) →
                  x ∈ allListeners (registry s)))
    as (R1 & L1 & A1 & E1 & C1 & LF1 & AL1).
  { destruct (listenersFor (registry s) !! et) as [ls|] eqn:Hls.
    - destruct H1 as (s2 & Hof & ->).
      apply removeEvents_of_effect in Hof
        as (L2 & A2 & E2 & C2 & R2 & _ & _ & _ & AL2).
      simpl. split_and!; try done.
      + intros e. destruct (decide (e = et)) as [->|Hne].
        * by rewrite lookup_insert_eq, Hls.
        * by rewrite lookup_insert_ne.
      + intros x Hx. by apply AL2 in Hx as [? _].
    - subst s1. split_and!; try done; [by rewrite with_tables_same|].
      intros e. destruct (decide (e = et)) as [->|]; [by rewrite Hls|done]. }
  split_and!; try congruence.
  - rewrite R, R1. done.
  - intros e. rewrite LF, !LF1.
    destruct (decide (e = et)) as [->|Hne].
    + rewrite (bool_decide_eq_true_2 (et ∈ et :: types)) by left.
      case_bool_decide; by destruct (listenersFor (registry s) !! et).
    + assert (bool_decide (e ∈ et :: types) = bool_decide (e ∈ types)) as ->;
        [|done].
      apply bool_decide_ext. rewrite elem_of_cons. naive_solver.
  - auto.
Qed.

(** X12.  [removeEvents()] leaves the set of every type it was given
    empty, and does not delete it from [listenersFor]; the sets of the
    other types, the listeners' handlers and options, and everything
    outside the two tables stay as they were, and no listener joins
    [allListeners]. *)
Theorem removeEvents_empties_the_types types s s' :
  removeEvents types s = Ok tt s' →
  registry s' =
    with_tables (allListeners (registry s')) (listenersFor (registry s'))
      (registry s)
  ∧ listeners s' = listeners s ∧ arrays s' = arrays s
  ∧ events s' = events s ∧ calls s' = calls s
  ∧ (∀ et, listenersFor (registry s') !! et =
           if bool_decide (et ∈ types)
           then (λ _, []) <$> listenersFor (registry s) !! et
           else listenersFor (registry s) !! et)
  ∧ (∀ x, x ∈ allListeners (registry s') → x ∈ allListeners (registry s)).
Proof. apply removeEvents_tables. Qed.

(** X13.  [removeEvents(et)] takes [et] from the types of every listener
    of its set.  Such a listener stays in [allListeners] exactly when it
    has another type left; all other members of [allListeners] stay. *)
Theorem removeEvents_last_type_unregisters et ls s s' :
  listenersFor (registry s) !! et = Some ls →
  removeEvents [et] s = Ok tt s' →
  (∀ l, l ∈ ls →
     ∃ lr ts, listeners s' !! l = Some lr
       ∧ sets s !! lsnr_eventTypes lr = Some ts
       ∧ sets s' !! lsnr_eventTypes lr = Some (set_delete et ts)
       ∧ (l ∈ allListeners (registry s') ↔
          l ∈ allListeners (registry s) ∧ set_delete et ts ≠ []))
  ∧ (∀ x, x ∉ ls →
       (x ∈ allListeners (registry s') ↔ x ∈ allListeners (registry s))).
Proof.
  intros Hls Hrun. apply removeEvents_one in Hrun. rewrite Hls in Hrun.
  destruct Hrun as (s2 & Hof & ->).
  apply removeEvents_of_effect in Hof as (L2 & _ & _ & _ & _ & _ & _ & P & AL).
  simpl. split.
  - intros l Hl. destruct (P l Hl) as (lr & ts & Hlr & Hts & Hts').
    exists lr, ts. rewrite L2. split_and!; [done|done|done|].
    rewrite AL. unfold only_type. split.
    + intros [Hal Hn]. split; [done|]. intros Hd. apply Hn. eauto 10.
    + intros [Hal Hn]. split; [done|].
      intros (_ & lr' & ts' & ? & ? & ?). by simplify_eq.
  - intros x Hx. rewrite AL. naive_solver.
Qed.

(** X14.  [remove()] with a string other than the wildcard empties the set
    of each name in the string, and of no other type: a wildcard that is
    one of several names is a type name like the others. *)
Theorem remove_names_empties_each_name names s s' :
  VStr names ≠ value_of_token (reg_wildcard (registry s)) →
  remove (VStr names) s = Ok tt s' →
  ∀ et, listenersFor (registry s') !! et =
        if bool_decide
             (et ∈ split_tokens (reg_delimiter (registry s)) names)
        then (λ _, []) <$> listenersFor (registry s) !! et
        else listenersFor (registry s) !! et.
Proof.
  intros Hw Hrun et. unfold remove in Hrun. rewrite bind_gets in Hrun.
  rewrite bool_decide_eq_false_2 in Hrun by done.
  unfold splitNames in Hrun. rewrite bind_bind, bind_gets in Hrun.
  unfold alloc_set in Hrun. rewrite bind_run in Hrun.
  unfold read_set in Hrun. rewrite bind_deref in Hrun.
  cbn [sets with_sets] in Hrun.
  rewrite lookup_app_r, Nat.sub_diag in Hrun by done.
  cbn [lookup list_lookup] in Hrun.
  apply removeEvents_tables in Hrun as (_ & _ & _ & _ & _ & LF & _).
  simpl in LF. rewrite LF.
  rewrite (bool_decide_ext _ _ (elem_of_new_set et _)). done.
Qed.

(** X15.  A listener that [removeEvents(et)] has unregistered, [et] having
    been its only type, has no type any more: [add()] puts it back into
    [allListeners], but into no set of [listenersFor]. *)
Theorem add_after_removeEvents_registers_for_nothing et ls l lr ts s s1 :
  tables_consistent s →
  listenersFor (registry s) !! et = Some ls → l ∈ ls →
  listeners s !! l = Some lr → sets s !! lsnr_eventTypes lr = Some ts →
  set_delete et ts = [] →
  removeEvents [et] s = Ok tt s1 →
  (l ∉ allListeners (registry s1))
  ∧ ∃ s2, add (VListener l) s1 = Ok tt s2
      ∧ l ∈ allListeners (registry s2)
      ∧ (∀ et' ls', listenersFor (registry s2) !! et' = Some ls' → l ∉ ls').
Proof.
  intros Hc Hls Hl Hlr Hts Hd Hrun.
  apply removeEvents_one in Hrun. rewrite Hls in Hrun.
  destruct Hrun as (s2 & Hof & ->).
  apply removeEvents_of_effect in Hof as (L2 & _ & _ & _ & _ & _ & _ & P & AL).
  destruct (P l Hl) as (lr' & ts' & Hlr' & Hts' & Hfin).
  rewrite Hlr in Hlr'. injection Hlr' as <-.
  rewrite Hts in Hts'. injection Hts' as <-.
  split.
  { simpl. rewrite AL. intros [_ Hn]. apply Hn. split; [done|].
    by exists lr, ts. }
  unfold add, get_listener, read_set, put_registry.
  rewrite bind_deref. cbn [listeners with_registry]. rewrite L2, Hlr.
  rewrite bind_deref. cbn [sets with_registry]. rewrite Hfin, Hd.
  rewrite bind_gets. unfold modify. eexists. split; [done|]. simpl. split.
  - apply elem_of_set_add. by left.
  - intros et' ls'. destruct (decide (et' = et)) as [->|Hne].
    + rewrite lookup_insert_eq. intros [= <-]. apply not_elem_of_nil.
    + rewrite lookup_insert_ne by done. intros Hls' Hl'.
      rewrite tables_consistent_spec in Hc.
      destruct (Hc et' ls' l Hls' Hl') as (_ & lr' & ts' & ? & ? & Het').
      simplify_eq.
      assert (et' ∈ set_delete et ts) as Hin by (by apply elem_of_set_delete).
      rewrite Hd in Hin. by apply elem_of_nil in Hin.
Qed.

(** ** A registry without [typeDataFor] *)

Section without_typeDataFor.
Context `{Callbacks}.

Lemma LumEvent_constructor_undefined lsnr tg type args sti s :
  typeDataFor (registry s) = None →
  LumEvent_constructor lsnr tg type args sti s = Err typeDataFor_undefined s.
Proof.
  intros Hno. unfold LumEvent_constructor. by rewrite bind_gets, Hno.
Qed.

Lemma emitEvent_undefined lsnr type tg args sti s :
  typeDataFor (registry s) = None →
  emitEvent lsnr type tg args sti s = Err typeDataFor_undefined s.
Proof.
  intros Hno. unfold emitEvent.
  by rewrite bind_run, LumEvent_constructor_undefined.
Qed.

Lemma emit_listeners_undefined ls ename tg args sti s :
  typeDataFor (registry s) = None → called sti = [] →
  emit_listeners ls ename tg args sti s =
    match ls with
    | [] => Ok (false, sti) s
    | _ :: _ => Err typeDataFor_undefined s
    end.
Proof.
  intros Hno Hc. destruct ls as [|l ls]; [done|]. simpl.
  rewrite Hc. simpl. rewrite orb_true_r.
  by rewrite bind_run, emitEvent_undefined.
Qed.

Lemma emit_types_undefined ets tg args sti s :
  typeDataFor (registry s) = None → called sti = [] →
  emit_types ets (listenersFor (registry s) !! reg_wildcard (registry s))
    tg args sti s =
    if existsb (has_candidate (registry s)) ets
    then Err typeDataFor_undefined s
    else Ok (false, sti) s.
Proof.
  intros Hno Hc. induction ets as [|et ets IH]; [done|].
  cbn [emit_types existsb]. rewrite bind_gets.
  unfold has_candidate at 1, candidates.
  destruct (listenersFor (registry s) !! et) as [ls|]; [|exact IH].
  rewrite bind_run, emit_listeners_undefined by done.
  by destruct (match listenersFor (registry s) !! reg_wildcard (registry s)
               with Some w => set_union ls w | None => ls end).
Qed.

Lemma emit_targets_undefined tgs args sti s ets :
  typeDataFor (registry s) = None →
  sets s !! sti_eventTypes sti = Some ets →
  emit_targets tgs (listenersFor (registry s) !! reg_wildcard (registry s))
    args sti s =
    if delivery_due (registry s) ets tgs
    then Err typeDataFor_undefined s
    else Ok (false, match tgs with
                    | [] => sti
                    | _ :: _ => sti_set_called (Some []) sti
                    end) s.
Proof.
  intros Hno Hets. revert sti Hets.
  induction tgs as [|tg tgs IH]; intros sti Hets; [done|].
  cbn [emit_targets delivery_due]. unfold read_set.
  rewrite bind_deref. simpl. rewrite Hets.
  rewrite bind_run, emit_types_undefined by done.
  destruct (existsb (has_candidate (registry s)) ets) eqn:Hdue; [done|].
  rewrite IH by done. unfold delivery_due. rewrite Hdue.
  by destruct tgs.
Qed.

(** X29.  On a registry without [typeDataFor], which is every registry
    the constructor has made, [emit()] builds no event and calls
    nobody.  After its set-up it either throws the [TypeError] of
    reading [typeDataFor], which it does as soon as there is a target
    and a requested type with a candidate listener; or, when there is
    none, it returns a status with nothing emitted.  Either way the
    registry and the listeners are as before: no [once] listener has
    been removed. *)
Theorem emit_throws_when_a_delivery_is_due types args s l s1 ets tgs :
  typeDataFor (registry s) = None →
  getEventTypes types (with_arrays (arrays s ++ [args]) s) = Ok l s1 →
  sets s1 !! l = Some ets →
  resolve_targets s1 = Ok tgs s1 →
  emit types args s =
    (if delivery_due (registry s) ets tgs
     then Err typeDataFor_undefined s1
     else Ok (idle_status (registry s) l tgs) s1)
  ∧ registry s1 = registry s ∧ listeners s1 = listeners s
  ∧ events s1 = events s ∧ calls s1 = calls s.
Proof.
  intros Hno Hets Hl Htgs.
  pose proof (getEventTypes_frame _ _ _ _ Hets) as (R1 & L1 & E1 & C1 & _).
  split; [|done].
  unfold emit. rewrite bind_run. unfold alloc_array at 1.
  rewrite bind_run, Hets, bind_gets, bind_run, Htgs.
  rewrite bind_run. simpl in R1. rewrite <-R1.
  rewrite (emit_targets_undefined tgs _ _ s1 ets); [|by rewrite R1|done].
  destruct (delivery_due (registry s1) ets tgs); [done|].
  by destruct tgs.
Qed.
End without_typeDataFor.











Section never_dispatched_facts.
Context `{Callbacks}.
















End never_dispatched_facts.

(** ** An [emit()] that throws *)

Section emit_errors.
Context `{Callbacks}.

Lemma invoke_Err k f this arg sti s e s' :
  invoke k f this arg sti s = Err e s' →
  (∃ v, e = Thrown v) ∧ registry s' = registry s
  ∧ listeners s' = listeners s.
Proof.
  unfold invoke. destruct (call_fn f this arg s) as [[b|]|v]; intros ?;
    simplify_eq. eauto.
Qed.

Lemma LumEvent_constructor_Err lsnr tg type args sti s e s' :
  LumEvent_constructor lsnr tg type args sti s = Err e s' →
  registry s' = registry s ∧ listeners s' = listeners s
  ∧ (e = Dangling ∨ e = typeDataFor_undefined ∨ ∃ v, e = Thrown v).
Proof.
  unfold LumEvent_constructor. intros Hrun. run_unfold. run_step Hrun.
  destruct (typeDataFor (registry s)) as [tdf|];
    [|rewrite bind_throw in Hrun; simplify_eq; eauto 10].
  run_step Hrun.
  destruct (listeners s !! lsnr) as [l|]; [|simplify_eq; eauto 10].
  run_step Hrun.
  destruct (arrays s !! args) as [a|]; [|simplify_eq; eauto 10].
  apply bind_Err in Hrun as [Hev|(ev & s2 & Hev & Hrun)].
  { destruct a as [|v rest]; [|destruct v]; run_step Hev; try done.
    destruct (events s !! _); [|simplify_eq; eauto 10]. by run_step Hev. }
  assert (registry s2 = registry s ∧ listeners s2 = listeners s) as [R2 L2].
  { destruct a as [|v rest]; [|destruct v]; run_step Hev;
      try (destruct (events s !! _) as [prev|]; [|done]; run_step Hev);
      by simplify_eq. }
  apply bind_Err in Hrun as [?|(e0 & s3 & [= <- <-] & Hrun)]; [done|].
  apply bind_Err in Hrun as [Hsetup|(sti1 & s4 & _ & ?)]; [|done].
  destruct (opt_get _ "setupEvent"); try done.
  apply invoke_Err in Hsetup as (? & -> & ->). simpl. eauto 10.
Qed.

Lemma emitEvent_Err lsnr type tg args sti s e s' :
  emitEvent lsnr type tg args sti s = Err e s' →
  registry s' = registry s ∧ listeners s' = listeners s
  ∧ (e = Dangling ∨ emit_error e).
Proof.
  unfold emitEvent, emit_error. intros Hrun.
  apply bind_Err in Hrun as [Hc|([e0 sti1] & s1 & Hc & Hrun)].
  { apply LumEvent_constructor_Err in Hc. naive_solver. }
  apply LumEvent_constructor_Ok in Hc
    as (_ & _ & R1 & _ & L1 & _).
  run_unfold. run_step Hrun.
  destruct (listeners s1 !! lsnr) as [l|]; [|simplify_eq; eauto].
  run_step Hrun.
  destruct (events s1 !! e0) as [ev|]; [|simplify_eq; eauto].
  apply bind_Err in Hrun as [Hh|(? & ? & _ & ?)]; [|done].
  destruct (lsnr_handler l); unfold throw in Hh; simplify_eq; eauto 10;
    apply invoke_Err in Hh as (? & -> & ->); eauto 10.
Qed.

Lemma emit_listeners_Err ls ename tg args sti s e s' :
  emit_listeners ls ename tg args sti s = Err e s' →
  registry s' = registry s ∧ listeners s' = listeners s
  ∧ (e = Dangling ∨ emit_error e).
Proof.
  revert sti s. induction ls as [|l ls IH]; intros sti s Hrun; [done|].
  simpl in Hrun.
  destruct (sti_multiMatch sti || negb (set_has l (called sti)));
    [|by eapply IH].
  apply bind_Err in Hrun as [He|([e0 sti1] & s1 & He & Hrun)].
  { by apply emitEvent_Err in He. }
  apply emitEvent_pass in He as (ev & [R1 _ L1 _ _ _ _ _ _ _ _] & _).
  simpl in Hrun. destruct (sti_stopEmitting sti1); [done|].
  apply IH in Hrun as (-> & -> & ?). done.
Qed.

Lemma emit_types_Err ets wilds tg args sti s e s' :
  sti_stopEmitting sti = false →
  emit_types ets wilds tg args sti s = Err e s' →
  registry s' = registry s ∧ listeners s' = listeners s
  ∧ (e = Dangling ∨ emit_error e).
Proof.
  revert sti s. induction ets as [|et ets IH]; intros sti s Hst Hrun; [done|].
  simpl in Hrun. rewrite bind_gets in Hrun.
  destruct (listenersFor (registry s) !! et) as [ls0|]; [|by eapply IH].
  apply bind_Err in Hrun as [Hl|([stop1 sti1] & s1 & Hl & Hrun)].
  { by apply emit_listeners_Err in Hl. }
  apply emit_listeners_pass in Hl
    as (evs & [R1 _ L1 _ _ _ _ _ _ _ _] & Hs1 & _); [|done].
  destruct stop1; [done|].
  apply IH in Hrun as (-> & -> & ?); done.
Qed.

Lemma emit_targets_Err tgs wilds args sti s e s' :
  sti_stopEmitting sti = false →
  emit_targets tgs wilds args sti s = Err e s' →
  registry s' = registry s ∧ listeners s' = listeners s
  ∧ (e = Dangling ∨ emit_error e).
Proof.
  revert sti s. induction tgs as [|tg tgs IH]; intros sti s Hst Hrun; [done|].
  simpl in Hrun. unfold read_set in Hrun. rewrite bind_deref in Hrun.
  simpl in Hrun.
  destruct (sets s !! sti_eventTypes sti) as [ets|]; [|simplify_eq; eauto].
  apply bind_Err in Hrun as [Ht|([stop1 sti1] & s1 & Ht & Hrun)].
  { by apply emit_types_Err in Ht. }
  apply emit_types_pass in Ht
    as (evs & [R1 _ L1 _ _ _ _ _ _ _ _] & Hs1 & _); [|done].
  destruct stop1; [done|].
  apply IH in Hrun as (-> & -> & ?); done.
Qed.

Lemma removeListeners_Err ls s e s' :
  removeListeners ls s = Err e s' → e = Dangling.
Proof.
  revert s. induction ls as [|l ls IH]; intros s Hrun; [done|].
  rewrite removeListeners_cons in Hrun.
  destruct (removeListeners [l] s) as [[] s1|e1 s1] eqn:H1; [by eapply IH|].
  simplify_eq. simpl in H1. rewrite bind_gets in H1.
  destruct (set_has l (allListeners (registry s))); [|done].
  run_unfold. rewrite bind_bind, bind_deref in H1.
  destruct (listeners s !! l) as [lr|]; [|by simplify_eq].
  rewrite bind_bind, bind_deref in H1.
  destruct (sets s !! lsnr_eventTypes lr); [|by simplify_eq]. done.
Qed.

Lemma remove_once_Err ls s e s' : remove_once ls s = Err e s' → e = Dangling.
Proof.
  revert s. induction ls as [|l ls IH]; intros s Hrun; [done|].
  cbn [remove_once] in Hrun.
  apply bind_Err in Hrun as [H1|([] & s1 & _ & Hrun)]; [|by eapply IH].
  by apply removeListeners_Err in H1.
Qed.

(** X25.  An [emit()] that throws leaves the registry and the listeners
    as they were: no listener has been removed, [once] or not.  What
    it throws is the [TypeError] for invalid event types, the
    [TypeError] of reading [typeDataFor] where the registry has none,
    the [TypeError] for a handler that cannot be called, or what a
    callback of the caller threw. *)
Theorem emit_that_throws_removes_no_listener types args s e s' :
  emit types args s = Err e s' →
  e ≠ Dangling →
  registry s' = registry s ∧ listeners s' = listeners s ∧ emit_error e.
Proof.
  unfold emit. intros Hrun Hne.
  apply bind_Err in Hrun as [?|(a & s0 & [= <- <-] & Hrun)]; [done|].
  apply bind_Err in Hrun as [Hets|(ets & s1 & Hets & Hrun)].
  { apply getEventTypes_Err in Hets as (_ & -> & ->).
    unfold emit_error. eauto. }
  apply getEventTypes_frame in Hets as (R1 & L1 & _).
  rewrite bind_gets in Hrun.
  apply bind_Err in Hrun as [Htgs|(tgs & s1' & Htgs & Hrun)].
  { unfold resolve_targets in Htgs. rewrite bind_gets in Htgs.
    destruct (getTargets (registry s1)); [done|].
    rewrite bind_get_state in Htgs.
    destruct (call_targets f s1); unfold throw in Htgs; simplify_eq.
    unfold emit_error. eauto 10. }
  apply resolve_targets_Ok in Htgs as [-> _].
  apply bind_Err in Hrun as [Hloop|([stop sti1] & s2 & _ & Hrun)].
  { apply emit_targets_Err in Hloop as (-> & -> & [?|?]); done. }
  apply bind_Err in Hrun as [Hrm|([] & ? & _ & ?)]; [|done].
  by apply remove_once_Err in Hrm.
Qed.
End emit_errors.

(** ** [hasTrigger()] *)

(** X26.  [hasTrigger()] returns the first of the known names under which
    the object has a function, and [null] exactly when it has a
    function under none of them: with the module's list, an [emit]
    method hides a [trigger] method. *)
Theorem hasTrigger_returns_first_known_method known obj :
  match hasTrigger known obj with
  | Some t =>
      ∃ pre post, known = pre ++ t :: post
        ∧ isFunction (opt_get obj t) = true
        ∧ ∀ t', t' ∈ pre → isFunction (opt_get obj t') = false
  | None => ∀ t, t ∈ known → isFunction (opt_get obj t) = false
  end
  ∧ (hasTrigger KNOWN_TRIGGERS obj = Some "trigger" ↔
     isFunction (opt_get obj "emit") = false
     ∧ isFunction (opt_get obj "trigger") = true).
Proof.
  split.
  2:{ simpl. destruct (isFunction (opt_get obj "emit")),
        (isFunction (opt_get obj "trigger")); naive_solver. }
  induction known as [|t0 known IH]; simpl.
  { by intros t ?%elem_of_nil. }
  destruct (isFunction (opt_get obj t0)) eqn:E.
  - exists [], known. split_and!; [done|done|]. by intros t' ?%elem_of_nil.
  - destruct (hasTrigger known obj) as [t|].
    + destruct IH as (pre & post & -> & Ht & Hpre).
      exists (t0 :: pre), post. split_and!; [done|done|].
      intros t' [->|?]%elem_of_cons; auto.
    + intros t [->|?]%elem_of_cons; auto.
Qed.

(** ** The invariant of the listener tables *)

Section invariant_kept.
Context `{Callbacks}.

(** X28.  The tables of a new registry are consistent (every listener of
    a set of [listenersFor] is in [allListeners] and has the type of
    that set among its own event types), and every operation of the
    registry that returns keeps them so: [listen], [once], [add],
    [remove], [removeListeners], [removeEvents], [removeAll], [set]
    and [emit]. *)
Theorem registry_operations_keep_the_tables_consistent s :
  tables_consistent s →
  (∀ args l s', listen args s = Ok l s' → tables_consistent s')
  ∧ (∀ args l s', once args s = Ok l s' → tables_consistent s')
  ∧ (∀ l s', add l s = Ok tt s' → tables_consistent s')
  ∧ (∀ what s', remove what s = Ok tt s' → tables_consistent s')
  ∧ (∀ ls s', removeListeners ls s = Ok tt s' → tables_consistent s')
  ∧ (∀ types s', removeEvents types s = Ok tt s' → tables_consistent s')
  ∧ (∀ s', removeAll s = Ok tt s' → tables_consistent s')
  ∧ (∀ type opts s', set type opts s = Ok tt s' → tables_consistent s')
  ∧ (∀ types args sti s',
       emit types args s = Ok sti s' → tables_consistent s')
  ∧ (∀ targets opts, tables_consistent (initial_state targets opts)).
Proof.
  intros Hc. split_and!.
  - intros args l s'. by apply listen_consistent.
  - intros args l s'. by apply once_consistent.
  - intros l s'. by apply add_consistent.
  - intros what s'. by apply remove_consistent.
  - intros ls s'. by apply removeListeners_consistent.
  - intros types s'. by apply removeEvents_consistent.
  - intros s'. by apply removeAll_consistent.
  - intros type opts s'. by apply set_consistent.
  - intros types args sti s'. by apply emit_consistent.
  - apply initial_state_consistent.
Qed.
End invariant_kept.

(** ** The properties on the scenarios *)

(** [splitNames(" a  b\ta ")]: the words [a], [b], [a]. *)
Lemma splitNames_collapses_white_space_witness :
  let sp := " "%char in
  let tab := ascii_of_nat 9 in
  let rest := [([sp; sp], ["b"%char]); ([tab], ["a"%char])] in
  (reg_delimiter (registry fresh_state) = DelimWhitespace
   ∧ Forall (λ c, is_ws c = true) [sp] ∧ Forall (λ c, is_ws c = true) [sp]
   ∧ is_word ["a"%char]
   ∧ Forall (λ p, is_gap p.1 ∧ is_word p.2) rest)
  ∧ splitNames
      (string_of_list_ascii ([sp] ++ spaced ["a"%char] rest ++ [sp]))
      fresh_state
    = Ok 0 (with_sets [[TokStr "a"; TokStr "b"]] fresh_state).
Proof.
  intros sp tab rest.
  assert (reg_delimiter (registry fresh_state) = DelimWhitespace) as H1
    by reflexivity.
  assert (Forall (λ c, is_ws c = true) [sp]) as H2 by (by repeat constructor).
  assert (is_word ["a"%char]) as H3.
  { split; [done|]. repeat constructor; try (vm_compute; lia). }
  assert (Forall (λ p, is_gap p.1 ∧ is_word p.2) rest) as H4.
  { repeat constructor; try done; try (vm_compute; lia). }
  split; [by split_and!|].
  exact (splitNames_collapses_white_space [sp] [sp] ["a"%char] rest
           fresh_state H1 H2 H2 H3 H4).
Defined.

(** [splitNames(" \t")]: the one name [""]. *)
Lemma splitNames_blank_witness :
  let pad := [" "%char; ascii_of_nat 9] in
  (reg_delimiter (registry fresh_state) = DelimWhitespace
   ∧ Forall (λ c, is_ws c = true) pad)
  ∧ splitNames (string_of_list_ascii pad) fresh_state
    = Ok 0 (with_sets [[TokStr ""]] fresh_state).
Proof.
  intros pad.
  assert (reg_delimiter (registry fresh_state) = DelimWhitespace) as H1
    by reflexivity.
  assert (Forall (λ c, is_ws c = true) pad) as H2 by (by repeat constructor).
  split; [by split|].
  exact (splitNames_blank pad fresh_state H1 H2).
Defined.

(** [listen("x y", handler)] on [wildcard_state]: listener [1] joins
    listener [0]. *)
Lemma listen_registers_under_each_type_witness :
  let s := wildcard_state in
  let args := ListenArgs (Some (TypesString "x y")) (VFun 0) None in
  let s' := state_after (@listen demo_callbacks args) s in
  @listen demo_callbacks args s = Ok 1 s'
  ∧ listeners s !! 1 = None
  ∧ allListeners (registry s') = [0; 1]
  ∧ listenersFor (registry s') !! TokStr "x" = Some [1]
  ∧ listenersFor (registry s') !! TokStr "y" = Some [1]
  ∧ listenersFor (registry s') !! TokStr "*" = Some [0].
Proof.
  intros s args s'.
  assert (@listen demo_callbacks args s = Ok 1 s') as H1
    by (vm_compute; reflexivity).
  split; [exact H1|].
  destruct (listen_registers_under_each_type args s 1 s' H1)
    as (Hnew & _ & lr & ts & Hlr & Hts & _ & Hal & Hlf).
  split; [exact Hnew|]. split; [exact Hal|].
  assert (ts = [TokStr "x"; TokStr "y"]) as ->.
  { assert (listeners s' !! 1 =
              Some {| lsnr_handler := VFun 0; lsnr_eventTypes := 1;
                      lsnr_options := ∅ |}) as Hlr' by (vm_compute; reflexivity).
    rewrite Hlr' in Hlr. injection Hlr as <-.
    assert (sets s' !! 1 = Some [TokStr "x"; TokStr "y"]) as Hts'
      by (vm_compute; reflexivity).
    simpl in Hts. rewrite Hts' in Hts. by injection Hts as <-. }
  split; [exact (Hlf (TokStr "x"))|].
  split; [exact (Hlf (TokStr "y"))|exact (Hlf (TokStr "*"))].
Defined.

(** [listen("x", f, spec)] with a [spec.listener]: the object is the
    handler, not [f]; [once] comes from [spec.options]. *)
Lemma makeListener_handler_and_options_witness :
  let args := ListenArgs (Some (TypesString "x")) (VFun 0)
                (Some spec_with_listener) in
  let s' := state_after (@makeListener demo_callbacks args) fresh_state in
  @makeListener demo_callbacks args fresh_state = Ok 0 s'
  ∧ ∃ lr, listeners s' !! 0 = Some lr
      ∧ lsnr_handler lr = VHandlerObj 5 3
      ∧ lsnr_options lr !! "once" = Some (VBool true)
      ∧ lsnr_options lr !! "tag" = Some (VStr "p")
      ∧ lsnr_options lr !! "handler" = None.
Proof.
  intros args s'.
  assert (@makeListener demo_callbacks args fresh_state = Ok 0 s') as H1
    by (vm_compute; reflexivity).
  split; [exact H1|].
  destruct (makeListener_handler_and_options (Some (TypesString "x")) (VFun 0)
              (Some spec_with_listener) fresh_state 0 s' H1)
    as (lr & Hlr & _ & Hh & Ho).
  exists lr. split; [exact Hlr|]. split; [exact Hh|].
  split; [apply (Ho "once"); discriminate|].
  split; [apply (Ho "tag"); discriminate|apply (Ho "handler"); discriminate].
Defined.

(** [listen("x", handler, {options: {setupListener: f8}})] on a
    registry whose own set-up callback is [f7]: one call, of [f8]. *)
Lemma listen_calls_setupListener_first_witness :
  let s := initial_state (TargetsSingle (VObj 1)) setup_opts in
  let args := ListenArgs (Some (TypesString "x")) (VFun 0)
                (Some (spec_with_setup 8)) in
  let s' := state_after (@listen demo_callbacks args) s in
  @listen demo_callbacks args s = Ok 0 s'
  ∧ calls s' = [{| call_kind_of := SetupListenerCall; call_fn_id := 8;
                   call_this := VRegistry; call_arg := VListener 0;
                   call_allListeners := []; call_listenersFor := ∅ |}]
  ∧ allListeners (registry s') = [0].
Proof.
  intros s args s'.
  assert (@listen demo_callbacks args s = Ok 0 s') as H1
    by (vm_compute; reflexivity).
  split; [exact H1|].
  destruct (listen_calls_setupListener_first args s 0 s' H1)
    as (lr & Hlr & Hcalls).
  split; [|vm_compute; reflexivity].
  assert (listeners s' !! 0 =
            Some {| lsnr_handler := VFun 0; lsnr_eventTypes := 0;
                    lsnr_options := {["setupListener" := VFun 8]} |}) as Hlr'
    by (vm_compute; reflexivity).
  rewrite Hlr' in Hlr. injection Hlr as <-. exact Hcalls.
Defined.

(** [listen("x", handler, {options: {setupListener: f2}})] where [f2]
    throws: the registry of [wildcard_state] is as it was. *)
Lemma listen_failure_registers_nothing_witness :
  let s := wildcard_state in
  let args := ListenArgs (Some (TypesString "x")) (VFun 0)
                (Some (spec_with_setup 2)) in
  let s' := state_after (@listen demo_callbacks args) s in
  @listen demo_callbacks args s = Err (Thrown (VStr "boom")) s'
  ∧ length (listeners s') = 2
  ∧ registry s' = registry s.
Proof.
  intros s args s'.
  assert (@listen demo_callbacks args s = Err (Thrown (VStr "boom")) s') as H1
    by (vm_compute; reflexivity).
  split; [exact H1|]. split; [vm_compute; reflexivity|].
  exact (proj1 (listen_failure_registers_nothing args s _ s' H1)).
Defined.

(** [add(listener)] twice, after [removeAll()] on [wildcard_state]. *)
Lemma add_twice_is_add_once_witness :
  let s := state_after removeAll wildcard_state in
  let s1 := state_after (add (VListener 0)) s in
  add (VListener 0) s = Ok tt s1
  ∧ allListeners (registry s) = []
  ∧ allListeners (registry s1) = [0]
  ∧ add (VListener 0) s1 = Ok tt s1.
Proof.
  intros s s1.
  assert (add (VListener 0) s = Ok tt s1) as H1 by (vm_compute; reflexivity).
  split; [exact H1|]. split; [reflexivity|]. split; [vm_compute; reflexivity|].
  exact (add_twice_is_add_once (VListener 0) s s1 H1).
Defined.

(** [removeListeners(listener0)] on [wildcard_x_state], twice. *)
Lemma removeListeners_again_changes_nothing_witness :
  let s := wildcard_x_state in
  let s1 := state_after (removeListeners [0]) s in
  removeListeners [0] s = Ok tt s1
  ∧ allListeners (registry s) = [0; 1]
  ∧ (1 ∈ allListeners (registry s1))
  ∧ (0 ∉ allListeners (registry s1))
  ∧ removeListeners [0] s1 = Ok tt s1.
Proof.
  intros s s1.
  assert (removeListeners [0] s = Ok tt s1) as H1 by (vm_compute; reflexivity).
  split; [exact H1|]. split; [reflexivity|].
  destruct (removeListeners_again_changes_nothing [0] s s1 H1) as [Hal Hagain].
  split.
  { apply Hal. split; apply (bool_decide_unpack _); vm_compute; exact I. }
  split; [|exact Hagain].
  intros Hin. apply Hal in Hin as [_ Hn]. apply Hn. left.
Defined.

(** [removeEvents("a")] on [two_types_state]: the set of ["a"] is empty,
    that of ["b"] still holds the listener. *)
Lemma removeEvents_empties_the_types_witness :
  let s := two_types_state in
  let s' := state_after (removeEvents [TokStr "a"]) s in
  removeEvents [TokStr "a"] s = Ok tt s'
  ∧ listenersFor (registry s) !! TokStr "a" = Some [0]
  ∧ listenersFor (registry s') !! TokStr "a" = Some []
  ∧ listenersFor (registry s') !! TokStr "b" = Some [0]
  ∧ listenersFor (registry s') !! TokStr "c" = None.
Proof.
  intros s s'.
  assert (removeEvents [TokStr "a"] s = Ok tt s') as H1
    by (vm_compute; reflexivity).
  split; [exact H1|]. split; [reflexivity|].
  destruct (removeEvents_empties_the_types [TokStr "a"] s s' H1)
    as (_ & _ & _ & _ & _ & Hlf & _).
  split; [exact (Hlf (TokStr "a"))|].
  split; [exact (Hlf (TokStr "b"))|exact (Hlf (TokStr "c"))].
Defined.

(** [removeEvents("a")] on [two_types_state]: the listener keeps ["b"]
    and stays; [removeEvents("x")] on [wildcard_x_state]: listener [1]
    had no other type and goes, the wildcard listener stays. *)
Lemma removeEvents_last_type_unregisters_witness :
  let s := two_types_state in
  let s' := state_after (removeEvents [TokStr "a"]) s in
  let t := wildcard_x_state in
  let t' := state_after (removeEvents [TokStr "x"]) t in
  (listenersFor (registry s) !! TokStr "a" = Some [0]
   ∧ removeEvents [TokStr "a"] s = Ok tt s'
   ∧ listenersFor (registry t) !! TokStr "x" = Some [1]
   ∧ removeEvents [TokStr "x"] t = Ok tt t')
  ∧ sets s' !! 0 = Some [TokStr "b"]
  ∧ (0 ∈ allListeners (registry s'))
  ∧ (1 ∉ allListeners (registry t'))
  ∧ (0 ∈ allListeners (registry t')).
Proof.
  intros s s' t t'.
  assert (listenersFor (registry s) !! TokStr "a" = Some [0]) as H1
    by reflexivity.
  assert (removeEvents [TokStr "a"] s = Ok tt s') as H2
    by (vm_compute; reflexivity).
  assert (listenersFor (registry t) !! TokStr "x" = Some [1]) as H3
    by reflexivity.
  assert (removeEvents [TokStr "x"] t = Ok tt t') as H4
    by (vm_compute; reflexivity).
  split; [by split_and!|].
  destruct (removeEvents_last_type_unregisters (TokStr "a") [0] s s' H1 H2)
    as [Hs _].
  destruct (removeEvents_last_type_unregisters (TokStr "x") [1] t t' H3 H4)
    as [Ht Ht'].
  destruct (Hs 0) as (lr & ts & Hlr & Hts & Hts' & Hal); [left|].
  assert (listeners s' !! 0 =
            Some {| lsnr_handler := VFun 0; lsnr_eventTypes := 0;
                    lsnr_options := ∅ |}) as Hlr0 by (vm_compute; reflexivity).
  rewrite Hlr0 in Hlr. injection Hlr as <-. simpl in Hts, Hts', Hal.
  assert (sets s !! 0 = Some [TokStr "a"; TokStr "b"]) as Hts0 by reflexivity.
  rewrite Hts0 in Hts. injection Hts as <-.
  split; [exact Hts'|]. split.
  { apply Hal. split; [apply (bool_decide_unpack _); vm_compute; exact I|].
    vm_compute. discriminate. }
  destruct (Ht 1) as (lr & ts & Hlr & Hts & _ & Hal1); [left|].
  assert (listeners t' !! 1 =
            Some {| lsnr_handler := VFun 0; lsnr_eventTypes := 1;
                    lsnr_options := ∅ |}) as Hlr1 by (vm_compute; reflexivity).
  rewrite Hlr1 in Hlr. injection Hlr as <-. simpl in Hts, Hal1.
  assert (sets t !! 1 = Some [TokStr "x"]) as Hts1 by reflexivity.
  rewrite Hts1 in Hts. injection Hts as <-.
  split.
  { intros Hin. apply Hal1 in Hin as [_ Hn]. apply Hn. vm_compute. reflexivity. }
  apply (Ht' 0).
  - intros Hin. apply list_elem_of_singleton in Hin. discriminate.
  - apply (bool_decide_unpack _). vm_compute. exact I.
Defined.

(** [remove("x *")] on [wildcard_x_state]: the sets of ["x"] and of the
    wildcard are emptied, as for any two names. *)
Lemma remove_names_empties_each_name_witness :
  let s := wildcard_x_state in
  let s' := state_after (remove (VStr "x *")) s in
  (VStr "x *" ≠ value_of_token (reg_wildcard (registry s))
   ∧ remove (VStr "x *") s = Ok tt s')
  ∧ listenersFor (registry s) !! TokStr "*" = Some [0]
  ∧ listenersFor (registry s') !! TokStr "*" = Some []
  ∧ listenersFor (registry s') !! TokStr "x" = Some [].
Proof.
  intros s s'.
  assert (VStr "x *" ≠ value_of_token (reg_wildcard (registry s))) as H1
    by discriminate.
  assert (remove (VStr "x *") s = Ok tt s') as H2 by (vm_compute; reflexivity).
  split; [by split|]. split; [reflexivity|].
  pose proof (remove_names_empties_each_name "x *" s s' H1 H2) as Hlf.
  split; [exact (Hlf (TokStr "*"))|exact (Hlf (TokStr "x"))].
Defined.

(** [removeEvents("x")] on [wildcard_x_state], then [add(listener1)]. *)
Lemma add_after_removeEvents_registers_for_nothing_witness :
  let s := wildcard_x_state in
  let lr := {| lsnr_handler := VFun 0; lsnr_eventTypes := 1;
               lsnr_options := ∅ |} in
  let s1 := state_after (removeEvents [TokStr "x"]) s in
  (tables_consistent s
   ∧ listenersFor (registry s) !! TokStr "x" = Some [1] ∧ 1 ∈ [1]
   ∧ listeners s !! 1 = Some lr
   ∧ sets s !! lsnr_eventTypes lr = Some [TokStr "x"]
   ∧ set_delete (TokStr "x") [TokStr "x"] = []
   ∧ removeEvents [TokStr "x"] s = Ok tt s1)
  ∧ (1 ∉ allListeners (registry s1))
  ∧ ∃ s2, add (VListener 1) s1 = Ok tt s2
      ∧ 1 ∈ allListeners (registry s2)
      ∧ (∀ et' ls', listenersFor (registry s2) !! et' = Some ls' → 1 ∉ ls').
Proof.
  intros s lr s1.
  assert (tables_consistent s) as H1
    by (apply (bool_decide_unpack _); vm_compute; exact I).
  assert (listenersFor (registry s) !! TokStr "x" = Some [1]) as H2
    by reflexivity.
  assert (1 ∈ [1]) as H3 by left.
  assert (listeners s !! 1 = Some lr) as H4 by reflexivity.
  assert (sets s !! lsnr_eventTypes lr = Some [TokStr "x"]) as H5
    by reflexivity.
  assert (set_delete (TokStr "x") [TokStr "x"] = []) as H6 by reflexivity.
  assert (removeEvents [TokStr "x"] s = Ok tt s1) as H7
    by (vm_compute; reflexivity).
  split; [by split_and!|].
  exact (add_after_removeEvents_registers_for_nothing (TokStr "x") [1] 1 lr
           [TokStr "x"] s s1 H1 H2 H3 H4 H5 H6 H7).
Defined.

(** The tables of [wildcard_x_state] are consistent, and so they are
    after [remove("x")] and after [once("y", handler)]. *)
Lemma registry_operations_keep_the_tables_consistent_witness :
  let s := wildcard_x_state in
  let args := ListenArgs (Some (TypesString "y")) (VFun 0) None in
  (tables_consistent s
   ∧ remove (VStr "x") s = Ok tt (state_after (remove (VStr "x")) s)
   ∧ @once demo_callbacks args s
     = Ok 2 (state_after (@once demo_callbacks args) s))
  ∧ tables_consistent (state_after (remove (VStr "x")) s)
  ∧ tables_consistent (state_after (@once demo_callbacks args) s).
Proof.
  intros s args.
  assert (tables_consistent s) as H1
    by (apply (bool_decide_unpack _); vm_compute; exact I).
  assert (remove (VStr "x") s = Ok tt (state_after (remove (VStr "x")) s))
    as H2 by (vm_compute; reflexivity).
  assert (@once demo_callbacks args s
          = Ok 2 (state_after (@once demo_callbacks args) s)) as H3
    by (vm_compute; reflexivity).
  split; [by split_and!|].
  destruct (@registry_operations_keep_the_tables_consistent demo_callbacks s H1)
    as (_ & Honce & _ & Hremove & _).
  split; [exact (Hremove _ _ H2)|exact (Honce _ _ _ H3)].
Defined.

(** [emit("x")] on [once_x_state]: the delivery to the [once] listener
    throws before its handler is called, and the listener is still
    registered. *)
Lemma emit_that_throws_removes_no_listener_witness :
  let s := once_x_state in
  let s' := state_after (emit_ "x" []) s in
  (@emit demo_callbacks (TypesString "x") [] s = Err typeDataFor_undefined s'
   ∧ typeDataFor_undefined ≠ Dangling)
  ∧ calls s' = []
  ∧ allListeners (registry s) = [0]
  ∧ registry s' = registry s.
Proof.
  intros s s'.
  assert (@emit demo_callbacks (TypesString "x") [] s
          = Err typeDataFor_undefined s') as H1 by (vm_compute; reflexivity).
  assert (typeDataFor_undefined ≠ Dangling) as H2 by discriminate.
  split; [by split|]. split; [vm_compute; reflexivity|].
  split; [vm_compute; reflexivity|].
  exact (proj1 (emit_that_throws_removes_no_listener (TypesString "x") [] s _
                  s' H1 H2)).
Defined.

(** [emit("a b")] on [two_types_state] throws: a delivery is due.
    [emit("c")] returns, with nothing emitted: no listener is a
    candidate for ["c"]. *)
Lemma emit_throws_when_a_delivery_is_due_witness :
  let s := two_types_state in
  let s0 := with_arrays (arrays s ++ [[]]) s in
  let s1 := state_after (getEventTypes (TypesString "a b")) s0 in
  let t1 := state_after (getEventTypes (TypesString "c")) s0 in
  let tgs := [VObj 1; VObj 2] in
  (typeDataFor (registry s) = None
   ∧ getEventTypes (TypesString "a b") s0 = Ok 1 s1
   ∧ sets s1 !! 1 = Some [TokStr "a"; TokStr "b"]
   ∧ @resolve_targets demo_callbacks s1 = Ok tgs s1
   ∧ getEventTypes (TypesString "c") s0 = Ok 1 t1
   ∧ sets t1 !! 1 = Some [TokStr "c"]
   ∧ @resolve_targets demo_callbacks t1 = Ok tgs t1)
  ∧ @emit demo_callbacks (TypesString "a b") [] s
    = Err typeDataFor_undefined s1
  ∧ @emit demo_callbacks (TypesString "c") [] s
    = Ok (idle_status (registry s) 1 tgs) t1.
Proof.
  intros s s0 s1 t1 tgs.
  assert (typeDataFor (registry s) = None) as H1 by reflexivity.
  assert (getEventTypes (TypesString "a b") s0 = Ok 1 s1) as H2
    by (vm_compute; reflexivity).
  assert (sets s1 !! 1 = Some [TokStr "a"; TokStr "b"]) as H3
    by (vm_compute; reflexivity).
  assert (@resolve_targets demo_callbacks s1 = Ok tgs s1) as H4
    by (vm_compute; reflexivity).
  assert (getEventTypes (TypesString "c") s0 = Ok 1 t1) as H5
    by (vm_compute; reflexivity).
  assert (sets t1 !! 1 = Some [TokStr "c"]) as H6
    by (vm_compute; reflexivity).
  assert (@resolve_targets demo_callbacks t1 = Ok tgs t1) as H7
    by (vm_compute; reflexivity).
  split; [by split_and!|].
  split.
  - exact (proj1 (emit_throws_when_a_delivery_is_due (TypesString "a b") [] s
                    1 s1 _ tgs H1 H2 H3 H4)).
  - exact (proj1 (emit_throws_when_a_delivery_is_due (TypesString "c") [] s
                    1 t1 _ tgs H1 H5 H6 H7)).
Defined.
